(** * BotBash 3D: the per-frame simulation of [App.tsx] ([GameLoop], [initGame])

    Shallow embedding of the frame callback passed to [useFrame] and of
    [initGame], together with the properties of the simulation core.

    Numbers.  A JavaScript [number] is an IEEE double; it is modelled here by
    a real number ([R]), so [Math.sqrt], [Math.sin], [Math.cos], [Math.atan2],
    [Math.PI], [Math.abs], [Math.min], [Math.max] and [Math.sign] are the
    functions of the Standard Library's reals.  Rounding, NaN and infinities
    are outside the model.

    Vectors.  [Vector3] comes from three.js; the methods used by the game
    ([clone], [add], [sub], [multiplyScalar], [normalize], [distanceTo]) are
    written as pure functions, [normalize] as three.js has it:
    [divideScalar(this.length() || 1)].

    Randomness.  The k-th call of [Math.random()] inside one frame returns
    [random k] of that frame's input.

    Keyboard.  The state of [useKeyboard] is a plain JavaScript object used
    as a map from key codes to booleans.  Its own properties are a finite
    map here; a code with no own property is read through the prototype
    chain, where the members of [Object.prototype] are found, all truthy. *)

From Stdlib Require Import Reals Lra Lia.
From stdpp Require Import base list strings pretty gmap.

Open Scope R_scope.

(** ** Numbers *)

Module Num.

Definition ltb (a b : R) : bool := if Rlt_dec a b then true else false.
Definition leb (a b : R) : bool := if Rle_dec a b then true else false.

(** [Math.sign] *)
Definition sign (a : R) : R :=
  if ltb 0 a then 1 else if ltb a 0 then -1 else 0.

(** [Math.atan2(y, x)] *)
Definition atan2 (y x : R) : R :=
  if ltb 0 x then atan (y / x)
  else if ltb x 0 then (if leb 0 y then atan (y / x) + PI else atan (y / x) - PI)
  else if ltb 0 y then PI / 2
  else if ltb y 0 then - (PI / 2)
  else 0.

End Num.

(** ** three.js [Vector3] *)

Record Vector3 : Type := mkVector3 { vx : R; vy : R; vz : R }.

Module Vec.

Definition add (a b : Vector3) : Vector3 :=
  mkVector3 (vx a + vx b) (vy a + vy b) (vz a + vz b).

Definition sub (a b : Vector3) : Vector3 :=
  mkVector3 (vx a - vx b) (vy a - vy b) (vz a - vz b).

Definition multiplyScalar (a : Vector3) (s : R) : Vector3 :=
  mkVector3 (vx a * s) (vy a * s) (vz a * s).

Definition length (a : Vector3) : R :=
  sqrt (vx a * vx a + vy a * vy a + vz a * vz a).

(** [divideScalar(s)] is [multiplyScalar(1 / s)] *)
Definition divideScalar (a : Vector3) (s : R) : Vector3 :=
  multiplyScalar a (1 / s).

(** [normalize()] is [divideScalar(this.length() || 1)]: a vector of length 0
    is divided by 1 and so stays the zero vector. *)
Definition normalize (a : Vector3) : Vector3 :=
  divideScalar a (if Req_dec_T (length a) 0 then 1 else length a).

Definition distanceTo (a b : Vector3) : R := length (sub a b).

Definition zero : Vector3 := mkVector3 0 0 0.

End Vec.

(** ** types.ts *)

Inductive GameState : Type := START | PLAYING | GAME_OVER | VICTORY.

Inductive RobotType : Type := spinner | wedge | tank.

Record RobotData : Type := mkRobot {
  id : string;
  isPlayer : bool;
  position : Vector3;
  velocity : Vector3;
  rotation : R;
  health : R;
  maxHealth : R;
  weaponActive : bool;
  isDead : bool;
  color : string;
  type : RobotType;
  stunnedUntil : R
}.

Definition isSpinner (t : RobotType) : bool :=
  match t with spinner => true | _ => false end.

(** Field updates ([bot.f = v]) *)
Definition setPosition (p : Vector3) (b : RobotData) : RobotData :=
  mkRobot (id b) (isPlayer b) p (velocity b) (rotation b) (health b) (maxHealth b)
          (weaponActive b) (isDead b) (color b) (type b) (stunnedUntil b).
Definition setVelocity (v : Vector3) (b : RobotData) : RobotData :=
  mkRobot (id b) (isPlayer b) (position b) v (rotation b) (health b) (maxHealth b)
          (weaponActive b) (isDead b) (color b) (type b) (stunnedUntil b).
Definition setRotation (a : R) (b : RobotData) : RobotData :=
  mkRobot (id b) (isPlayer b) (position b) (velocity b) a (health b) (maxHealth b)
          (weaponActive b) (isDead b) (color b) (type b) (stunnedUntil b).
Definition setHealth (h : R) (b : RobotData) : RobotData :=
  mkRobot (id b) (isPlayer b) (position b) (velocity b) (rotation b) h (maxHealth b)
          (weaponActive b) (isDead b) (color b) (type b) (stunnedUntil b).
Definition setWeaponActive (w : bool) (b : RobotData) : RobotData :=
  mkRobot (id b) (isPlayer b) (position b) (velocity b) (rotation b) (health b) (maxHealth b)
          w (isDead b) (color b) (type b) (stunnedUntil b).
Definition setIsDead (d : bool) (b : RobotData) : RobotData :=
  mkRobot (id b) (isPlayer b) (position b) (velocity b) (rotation b) (health b) (maxHealth b)
          (weaponActive b) d (color b) (type b) (stunnedUntil b).
Definition setStunnedUntil (t : R) (b : RobotData) : RobotData :=
  mkRobot (id b) (isPlayer b) (position b) (velocity b) (rotation b) (health b) (maxHealth b)
          (weaponActive b) (isDead b) (color b) (type b) t.

(** ** constants.ts *)

Definition ARENA_SIZE : R := 22.
Definition WALL_GAP : R := 5.
Definition ROBOT_RADIUS : R := 8 / 10.
Definition MAX_ROBOT_HEALTH : R := 100.
Definition MOVE_SPEED : R := 8 / 1000.
Definition ENEMY_SPEED_MULT : R := 4 / 10.
Definition TURN_SPEED : R := 8 / 100.
Definition FRICTION : R := 92 / 100.
Definition KNOCKBACK_FORCE : R := 15 / 100.
Definition WEAPON_DAMAGE : R := 15.
Definition ENEMY_COUNT : nat := 3.

Definition PLAYER_COLOR : string := "#facc15".

(** Locals of the frame callback *)
Definition halfSize : R := ARENA_SIZE / 2.
Definition wallRange : R := halfSize - WALL_GAP.
Definition bRad : R := ROBOT_RADIUS.
Definition minDist : R := ROBOT_RADIUS * (21 / 10).

(** ** Input of one frame *)

Record FrameInput : Type := mkInput {
  keys : string -> bool;      (* [useKeyboard()]: whether [keys[code]] is truthy *)
  now : R;                    (* [state.clock.getElapsedTime()] *)
  random : nat -> R           (* the successive values of [Math.random()] *)
}.

(** ** Steering *)

Module Steering.

(** [while (diff < -Math.PI) diff += Math.PI * 2], run for at most [n] rounds *)
Fixpoint raise (n : nat) (d : R) : R :=
  if Num.ltb d (- PI) then
    match n with
    | O => d
    | S m => raise m (d + PI * 2)
    end
  else d.

(** [while (diff > Math.PI) diff -= Math.PI * 2], run for at most [n] rounds *)
Fixpoint lower (n : nat) (d : R) : R :=
  if Num.ltb PI d then
    match n with
    | O => d
    | S m => lower m (d - PI * 2)
    end
  else d.

(** A number of rounds after which either loop has left its condition. *)
Definition rounds (d : R) : nat := Z.to_nat (up (Rabs d / (PI * 2))).

Definition wrapUp (d : R) : R := raise (rounds d) d.
Definition wrapDown (d : R) : R := lower (rounds d) d.

(** The two loops in sequence *)
Definition wrap (d : R) : R := wrapDown (wrapUp d).

Definition forwardOf (rot : R) : Vector3 := mkVector3 (sin rot) 0 (cos rot).

Definition held (inp : FrameInput) (a b : string) : bool := keys inp a || keys inp b.

(** The player branch.  [forward.multiplyScalar] scales [forward] in place, so
    the reverse impulse scales the vector the forward impulse has left. *)
Definition player (inp : FrameInput) (bot : RobotData) : RobotData :=
  let rot1 := if held inp "ArrowLeft" "KeyA" then rotation bot + TURN_SPEED else rotation bot in
  let rot2 := if held inp "ArrowRight" "KeyD" then rot1 - TURN_SPEED else rot1 in
  let forward0 := forwardOf rot2 in
  let up := held inp "ArrowUp" "KeyW" in
  let down := held inp "ArrowDown" "KeyS" in
  let forward1 := if up then Vec.multiplyScalar forward0 MOVE_SPEED else forward0 in
  let vel1 := if up then Vec.add (velocity bot) forward1 else velocity bot in
  let forward2 := Vec.multiplyScalar forward1 (- MOVE_SPEED) in
  let vel2 := if down then Vec.add vel1 forward2 else vel1 in
  let w := if keys inp "Space" && negb (weaponActive bot) then true else weaponActive bot in
  setWeaponActive w (setVelocity vel2 (setRotation rot2 bot)).

Definition angleToPlayer (playerPos : Vector3) (bot : RobotData) : R :=
  let dirToPlayer := Vec.normalize (Vec.sub playerPos (position bot)) in
  Num.atan2 (vx dirToPlayer) (vz dirToPlayer).

(** [diff] as the enemy branch has it after the two loops *)
Definition aiDiff (playerPos : Vector3) (bot : RobotData) : R :=
  wrap (angleToPlayer playerPos bot - rotation bot).

(** The impulse of an enemy that faces [rot] *)
Definition aiThrust (rot : R) : Vector3 :=
  Vec.multiplyScalar (forwardOf rot) (MOVE_SPEED * ENEMY_SPEED_MULT).

Definition aiTurn (diff : R) : R :=
  Num.sign diff * Rmin (Rabs diff) (TURN_SPEED * (3 / 10)).

(** The enemy branch; [k] counts the calls of [Math.random()] so far. *)
Definition enemy (inp : FrameInput) (playerPos : Vector3) (bot : RobotData) (k : nat)
  : RobotData * nat :=
  let diff := aiDiff playerPos bot in
  let rot := rotation bot + aiTurn diff in
  let vel :=
    if Num.ltb (Rabs diff) (5 / 10)
    then Vec.add (velocity bot) (aiThrust rot)
    else velocity bot in
  let bot1 := setVelocity vel (setRotation rot bot) in
  if isSpinner (type bot)
  then (if Num.ltb (random inp k) (5 / 1000) then setWeaponActive true bot1 else bot1, S k)
  else (bot1, k).

(** [if (now >= bot.stunnedUntil) { ... }] *)
Definition steer (inp : FrameInput) (playerPos : Vector3) (bot : RobotData) (k : nat)
  : RobotData * nat :=
  if Num.leb (stunnedUntil bot) (now inp)
  then (if isPlayer bot then (player inp bot, k) else enemy inp playerPos bot k)
  else (bot, k).

End Steering.

(** ** Integration, walls and pits *)

Module Physics.

(** [bot.position.add(bot.velocity); bot.velocity.multiplyScalar(FRICTION)] *)
Definition integrate (bot : RobotData) : RobotData :=
  setVelocity (Vec.multiplyScalar (velocity bot) FRICTION)
              (setPosition (Vec.add (position bot) (velocity bot)) bot).

Definition setX (a : R) (v : Vector3) : Vector3 := mkVector3 a (vy v) (vz v).
Definition setZ (a : R) (v : Vector3) : Vector3 := mkVector3 (vx v) (vy v) a.

(** What the X-axis wall check does to the pair (position, velocity) *)
Definition bounceX (bot : RobotData) (a : R) : RobotData :=
  setVelocity (setX (vx (velocity bot) * - (3 / 10)) (velocity bot))
              (setPosition (setX a (position bot)) bot).

Definition bounceZ (bot : RobotData) (a : R) : RobotData :=
  setVelocity (setZ (vz (velocity bot) * - (3 / 10)) (velocity bot))
              (setPosition (setZ a (position bot)) bot).

(** X-axis wall check *)
Definition wallX (bot : RobotData) : RobotData :=
  if Num.ltb (Rabs (vz (position bot))) wallRange then
    if Num.ltb (halfSize - bRad) (vx (position bot)) then bounceX bot (halfSize - bRad)
    else if Num.ltb (vx (position bot)) (- halfSize + bRad) then bounceX bot (- halfSize + bRad)
    else bot
  else bot.

(** Z-axis wall check *)
Definition wallZ (bot : RobotData) : RobotData :=
  if Num.ltb (Rabs (vx (position bot))) wallRange then
    if Num.ltb (halfSize - bRad) (vz (position bot)) then bounceZ bot (halfSize - bRad)
    else if Num.ltb (vz (position bot)) (- halfSize + bRad) then bounceZ bot (- halfSize + bRad)
    else bot
  else bot.

Definition walls (bot : RobotData) : RobotData := wallZ (wallX bot).

Definition isOutOfBoundsX (bot : RobotData) : bool :=
  Num.ltb (halfSize + 5 / 10) (Rabs (vx (position bot))).
Definition isOutOfBoundsZ (bot : RobotData) : bool :=
  Num.ltb (halfSize + 5 / 10) (Rabs (vz (position bot))).

(** Final pit check *)
Definition pit (bot : RobotData) : RobotData :=
  if isOutOfBoundsX bot || isOutOfBoundsZ bot
  then setHealth 0 (setIsDead true bot)
  else bot.

Definition physics (bot : RobotData) : RobotData := pit (walls (integrate bot)).

End Physics.

(** ** One robot of the first [forEach] *)

Definition stepBot (inp : FrameInput) (playerPos : Vector3) (bot : RobotData) (k : nat)
  : RobotData * nat :=
  if isDead bot then (bot, k)
  else let '(bot1, k1) := Steering.steer inp playerPos bot k in (Physics.physics bot1, k1).

(** The first [forEach].  [player] is an element of [updatedRobots], so an
    enemy reads the position the player has when the enemy's turn comes: [p]
    is the player's index and the position is looked up in the current array. *)
Definition moveAt (inp : FrameInput) (p : nat) (st : list RobotData * nat) (i : nat)
  : list RobotData * nat :=
  match fst st !! i, fst st !! p with
  | Some bot, Some pl =>
      let '(bot1, k1) := stepBot inp (position pl) bot (snd st) in
      (<[i := bot1]> (fst st), k1)
  | _, _ => st
  end.

Definition movement (inp : FrameInput) (p : nat) (rs : list RobotData)
  : list RobotData * nat :=
  fold_left (moveAt inp p) (seq 0 (length rs)) (rs, O).

(** ** Collisions *)

Module Combat.

Definition spinning (r : RobotData) : bool := weaponActive r && isSpinner (type r).

Definition normalOf (r1 r2 : RobotData) : Vector3 :=
  Vec.normalize (Vec.sub (position r1) (position r2)).

Definition knockOf (r1 r2 : RobotData) : R :=
  KNOCKBACK_FORCE + (if spinning r1 then 2 / 10 else 0) + (if spinning r2 then 2 / 10 else 0).

(** Damage taken from an opponent [other]: [1], plus [WEAPON_DAMAGE] when the
    opponent is a spinner with its weapon active *)
Definition damageFrom (other : RobotData) : R :=
  if spinning other then 1 + WEAPON_DAMAGE else 1.

(** [r.health = Math.max(0, r.health - d); r.stunnedUntil = now + 0.2;
     if (r.health <= 0) r.isDead = true] *)
Definition wound (t : R) (d : R) (r : RobotData) : RobotData :=
  let h := Rmax 0 (health r - d) in
  let r1 := setStunnedUntil (t + 2 / 10) (setHealth h r) in
  if Num.leb h 0 then setIsDead true r1 else r1.

(** [normal.clone().multiplyScalar(s)] added to position, then
    [normal.clone().multiplyScalar(kn)] added to velocity *)
Definition push (normal : Vector3) (s kn : R) (r : RobotData) : RobotData :=
  setVelocity (Vec.add (velocity r) (Vec.multiplyScalar normal kn))
              (setPosition (Vec.add (position r) (Vec.multiplyScalar normal s)) r).

(** The body of [if (dist < minDist)] *)
Definition hit (t : R) (r1 r2 : RobotData) : RobotData * RobotData :=
  let dist := Vec.distanceTo (position r1) (position r2) in
  let normal := normalOf r1 r2 in
  let overlap := minDist - dist in
  let knock := knockOf r1 r2 in
  (wound t (damageFrom r2) (push normal (overlap * (4 / 10)) knock r1),
   wound t (damageFrom r1) (push normal (- overlap * (4 / 10)) (- knock) r2)).

Definition touching (r1 r2 : RobotData) : bool :=
  Num.ltb (Vec.distanceTo (position r1) (position r2)) minDist.

(** The body of the inner loop for the pair [(i, j)] *)
Definition resolvePair (t : R) (st : list RobotData) (ij : nat * nat) : list RobotData :=
  match st !! fst ij, st !! snd ij with
  | Some r1, Some r2 =>
      if isDead r1 || isDead r2 then st
      else if touching r1 r2
           then let '(r1', r2') := hit t r1 r2 in <[snd ij := r2']> (<[fst ij := r1']> st)
           else st
  | _, _ => st
  end.

(** [for i in 0..n-1, for j in i+1..n-1] *)
Definition pairs (n : nat) : list (nat * nat) :=
  flat_map (fun i => map (fun j => (i, j)) (seq (S i) (n - S i))) (seq 0 n).

Definition pass (t : R) (rs : list RobotData) : list RobotData :=
  fold_left (resolvePair t) (pairs (length rs)) rs.

End Combat.

(** ** Weapon decay (the last [forEach]) *)

Fixpoint decay (inp : FrameInput) (rs : list RobotData) (k : nat) : list RobotData :=
  match rs with
  | [] => []
  | bot :: rest =>
      if weaponActive bot
      then (if Num.ltb (random inp k) (4 / 100) then setWeaponActive false bot else bot)
             :: decay inp rest (S k)
      else bot :: decay inp rest k
  end.

(** ** The frame callback and [initGame] *)

Record App : Type := mkApp { robots : list RobotData; gameState : GameState }.

Definition isPlaying (g : GameState) : bool :=
  match g with PLAYING => true | _ => false end.

(** Index of the element [updatedRobots.find(r => r.isPlayer)] returns *)
Fixpoint findPlayer (rs : list RobotData) : option nat :=
  match rs with
  | [] => None
  | r :: rest => if isPlayer r then Some O else option_map S (findPlayer rest)
  end.

Definition enemies (rs : list RobotData) : list RobotData :=
  List.filter (fun r => negb (isPlayer r) && negb (isDead r)) rs.

(** The callback of [useFrame]: the camera is left out, it reads the player
    and writes only [state.camera].  A [return] before [setRobots] leaves
    [robots] as it was. *)
Definition useFrame (inp : FrameInput) (app : App) : App :=
  if negb (isPlaying (gameState app)) then app
  else
    match findPlayer (robots app) with
    | None => mkApp (robots app) GAME_OVER
    | Some p =>
        match robots app !! p with
        | None => mkApp (robots app) GAME_OVER
        | Some pl =>
            if isDead pl then mkApp (robots app) GAME_OVER
            else if Nat.eqb (length (enemies (robots app))) 0 then mkApp (robots app) VICTORY
            else
              let '(moved, k) := movement inp p (robots app) in
              mkApp (decay inp (Combat.pass (now inp) moved) k) PLAYING
        end
    end.

Definition playerRobot : RobotData :=
  mkRobot "player" true Vec.zero Vec.zero 0 MAX_ROBOT_HEALTH MAX_ROBOT_HEALTH
          false false PLAYER_COLOR spinner 0.

Definition types : list RobotType := [tank; wedge; spinner].

Definition enemyRobot (i : nat) : RobotData :=
  let angle := INR i / INR ENEMY_COUNT * PI * 2 in
  let dist := 6 in
  mkRobot ("enemy-" +:+ pretty i) false
          (mkVector3 (cos angle * dist) 0 (sin angle * dist)) Vec.zero
          (PI + angle) MAX_ROBOT_HEALTH MAX_ROBOT_HEALTH false false "#ef4444"
          (nth (i mod length types) types tank) 0.

Definition initialRobots : list RobotData :=
  playerRobot :: map enemyRobot (seq 0 ENEMY_COUNT).

Definition initGame (app : App) : App := mkApp initialRobots PLAYING.

(** [useState(GameState.START)], [useState([])] *)
Definition initialApp : App := mkApp [] START.

(** What the application can do: render a frame, or run [initGame] from the
    ENGAGE / RE-INITIALIZE button, which is shown only outside PLAYING. *)
Inductive step : App -> App -> Prop :=
| step_frame inp app : step app (useFrame inp app)
| step_init app : isPlaying (gameState app) = false -> step app (initGame app).

Inductive reachable : App -> Prop :=
| reach_start : reachable initialApp
| reach_step app app' : reachable app -> step app app' -> reachable app'.

(** Several frames in a row *)
Definition frames (inps : list FrameInput) (app : App) : App :=
  fold_left (fun a inp => useFrame inp a) inps app.

(** ** Notions the properties are stated with *)

(** The frame simulates only in PLAYING, with a live player and a live enemy. *)
Definition simulating (app : App) : bool :=
  isPlaying (gameState app) &&
  match findPlayer (robots app) with
  | Some p =>
      match robots app !! p with
      | Some pl => negb (isDead pl) && negb (Nat.eqb (length (enemies (robots app))) 0)
      | None => false
      end
  | None => false
  end.

(** The player position an enemy at index [i] reads: the player's entry has
    already been advanced when the player's index [p] is below [i]. *)
Definition playerSeen (inp : FrameInput) (rs : list RobotData) (p i : nat) : Vector3 :=
  match rs !! p with
  | Some pl =>
      if (p <? i)%nat then position (fst (stepBot inp (position pl) pl O)) else position pl
  | None => Vec.zero
  end.

(** The array when the first loop, run on [rs], is about to visit index [a] *)
Definition visited (inp : FrameInput) (rs : list RobotData) (p a : nat)
  (st : list RobotData) : Prop :=
  length st = length rs /\
  (forall j, (a <= j)%nat -> st !! j = rs !! j) /\
  (forall j b, (j < a)%nat -> rs !! j = Some b ->
     exists k0, st !! j = Some (fst (stepBot inp (playerSeen inp rs p j) b k0))).

(** One robot before and after: the maximum stays, a health that is not
    negative stays so and does not grow, and a dead robot stays dead with
    the health it had. *)
Definition Fades (b b' : RobotData) : Prop :=
  maxHealth b' = maxHealth b /\
  (0 <= health b -> 0 <= health b' <= health b) /\
  (isDead b = true -> isDead b' = true /\ health b' = health b).

(** Health within its bounds, with the maximum given at creation *)
Definition sound (b : RobotData) : Prop :=
  0 <= health b <= maxHealth b /\ maxHealth b = MAX_ROBOT_HEALTH.

(** No wall check clamps a robot at position [pos]. *)
Definition clampFree (pos : Vector3) : Prop :=
  ~ (Rabs (vz pos) < wallRange /\
     (halfSize - bRad < vx pos \/ vx pos < - halfSize + bRad)) /\
  ~ (Rabs (vx pos) < wallRange /\
     (halfSize - bRad < vz pos \/ vz pos < - halfSize + bRad)).

(** The test of the inner loop for the pair [ij] in the array [st] *)
Definition collides (st : list RobotData) (ij : nat * nat) : bool :=
  match st !! fst ij, st !! snd ij with
  | Some r1, Some r2 => negb (isDead r1 || isDead r2) && Combat.touching r1 r2
  | _, _ => false
  end.

(** Robot [i] has no partner within the collision distance whenever the
    second loop looks at a pair it belongs to. *)
Fixpoint untouched (t : R) (i : nat) (ps : list (nat * nat)) (st : list RobotData) : Prop :=
  match ps with
  | [] => True
  | ij :: rest =>
      (fst ij = i \/ snd ij = i -> collides st ij = false) /\
      untouched t i rest (Combat.resolvePair t st ij)
  end.

(** Robot [i] is in no collision of the frame. *)
Definition calm (inp : FrameInput) (app : App) (p i : nat) : Prop :=
  let moved := fst (movement inp p (robots app)) in
  untouched (now inp) i (Combat.pairs (length moved)) moved.

(** Steering adds no impulse to the robot: it is dead or stunned, or it is
    the player with neither thrust key held, or an enemy whose angular
    difference to the player position [pp] it reads is 0.5 or more. *)
Definition thrustless (inp : FrameInput) (pp : Vector3) (bot : RobotData) : Prop :=
  isDead bot = true \/
  now inp < stunnedUntil bot \/
  (isPlayer bot = true /\
   Steering.held inp "ArrowUp" "KeyW" = false /\
   Steering.held inp "ArrowDown" "KeyS" = false) \/
  (isPlayer bot = false /\ 5 / 10 <= Rabs (Steering.aiDiff pp bot)).

(** ** Robots, states and inputs of the examples *)

Definition facingEnemy : RobotData :=
  mkRobot "enemy-0" false Vec.zero Vec.zero PI 100 100 false false "#ef4444" tank 0.

Definition wallRunner : RobotData :=
  mkRobot "player" true (mkVector3 12 0 0) (mkVector3 1 0 0) 0 100 100
          false false PLAYER_COLOR spinner 0.

Definition activeSpinner : RobotData :=
  mkRobot "player" true (mkVector3 0 0 0) Vec.zero 0 100 100 true false PLAYER_COLOR spinner 0.

Definition wornTank : RobotData :=
  mkRobot "enemy-0" false (mkVector3 1 0 0) Vec.zero 0 4 100 false false "#ef4444" tank 0.

Definition stackedTank : RobotData :=
  mkRobot "enemy-0" false (mkVector3 0 0 0) Vec.zero 0 100 100 false false "#ef4444" tank 0.

Definition lostApp : App := mkApp [wornTank] GAME_OVER.

Definition scrappedPlayer : RobotData :=
  mkRobot "player" true Vec.zero Vec.zero 0 0 100 false true PLAYER_COLOR spinner 0.

Definition faller : RobotData :=
  mkRobot "enemy-1" false (mkVector3 (114 / 10) 0 8) (mkVector3 (2 / 10) 0 0) 0 100 100
          false false "#ef4444" wedge 1.

(** A player at rest five units in front of an enemy that faces it *)
Definition restingPlayer : RobotData :=
  mkRobot "player" true (mkVector3 0 0 5) Vec.zero 0 100 100 false false PLAYER_COLOR spinner 0.

Definition chaser : RobotData :=
  mkRobot "enemy-0" false (mkVector3 0 0 0) Vec.zero 0 100 100 false false "#ef4444" tank 0.

Definition duel : App := mkApp [restingPlayer; chaser] PLAYING.

Definition noKeys : FrameInput := mkInput (fun _ => false) 0 (fun _ => 0).

(** A dead enemy *)
Definition wreck : RobotData :=
  mkRobot "enemy-1" false (mkVector3 3 0 3) Vec.zero 0 0 100 false true "#ef4444" wedge 0.

(** A stunned player that drifts into a corner gap *)
Definition fallingPlayer : RobotData :=
  mkRobot "player" true (mkVector3 (114 / 10) 0 8) (mkVector3 (2 / 10) 0 0) 0 100 100
          false false PLAYER_COLOR spinner 1.

(** ** hooks/useKeyboard.ts *)

Module Keyboard.

Inductive KeyEvent : Type :=
| keydown (code : string)
| keyup (code : string).

Definition GAME_KEYS : list string :=
  ["ArrowUp"; "ArrowDown"; "ArrowLeft"; "ArrowRight"; "KeyW"; "KeyA"; "KeyS"; "KeyD"; "Space"].

(** [setKeys((prev) => ({ ...prev, [e.code]: true }))] *)
Definition handleKeyDown (code : string) (prev : gmap string bool) : gmap string bool :=
  <[code := true]> prev.

(** [setKeys((prev) => ({ ...prev, [e.code]: false }))] *)
Definition handleKeyUp (code : string) (prev : gmap string bool) : gmap string bool :=
  <[code := false]> prev.

(** [if (GAME_KEYS.includes(e.code)) e.preventDefault()], in [handleKeyDown] only *)
Definition preventsDefault (e : KeyEvent) : bool :=
  match e with
  | keydown code => bool_decide (code ∈ GAME_KEYS)
  | keyup _ => false
  end.

(** The listener that [window] calls for an event *)
Definition dispatch (prev : gmap string bool) (e : KeyEvent) : gmap string bool :=
  match e with
  | keydown code => handleKeyDown code prev
  | keyup code => handleKeyUp code prev
  end.

(** [useState({})] *)
Definition noneHeld : gmap string bool := ∅.

(** The property names of [Object.prototype] (ECMAScript, with its annex B):
    the state is a plain object, so [keys[code]] finds these when the object
    has no own property of that name. *)
Definition objectPrototype : list string :=
  ["constructor"; "hasOwnProperty"; "isPrototypeOf"; "propertyIsEnumerable";
   "toLocaleString"; "toString"; "valueOf"; "__proto__";
   "__defineGetter__"; "__defineSetter__"; "__lookupGetter__"; "__lookupSetter__"].

(** What [keys[code]] is worth in a condition when [code] is no own property:
    a member of [Object.prototype] is a function or an object, hence truthy;
    any other name reads [undefined]. *)
Definition inherited (code : string) : bool :=
  existsb (String.eqb code) objectPrototype.

(** What [keys[code]] is worth in a condition: the own property if there is
    one, else what the prototype chain gives *)
Definition pressed (m : gmap string bool) (code : string) : bool :=
  match m !! code with
  | Some b => b
  | None => inherited code
  end.

(** The keys as the frame callback reads them *)
Definition inputOf (m : gmap string bool) (t : R) (rnd : nat -> R) : FrameInput :=
  mkInput (pressed m) t rnd.

End Keyboard.

(** ** components/Arena.tsx *)

Module Arena.

(** [const wallWidth = ARENA_SIZE - WALL_GAP * 2]: the length of each of the
    four wall boxes, which are centred on the middle of their side *)
Definition wallWidth : R := ARENA_SIZE - WALL_GAP * 2.

(** The corner pit indicators: squares of side [WALL_GAP] centred at
    [+-(ARENA_SIZE/2 - WALL_GAP/2)] on both axes *)
Definition pitCentre : R := ARENA_SIZE / 2 - WALL_GAP / 2.
Definition pitSide : R := WALL_GAP.

End Arena.

(** ** Further notions *)

(** The fields no frame writes *)
Definition sameRobot (b b' : RobotData) : Prop :=
  id b' = id b /\ isPlayer b' = isPlayer b /\ type b' = type b /\
  color b' = color b /\ maxHealth b' = maxHealth b.

(** Dead exactly at health 0 *)
Definition vital (b : RobotData) : Prop :=
  (isDead b = false -> 0 < health b) /\ (isDead b = true -> health b = 0).

(** The player is a spinner, and so is every robot with its weapon active *)
Definition armedSpinner (b : RobotData) : Prop :=
  (isPlayer b = true -> type b = spinner) /\ (weaponActive b = true -> type b = spinner).

(** All of a robot but its weapon flag is as it was, and the robot is dead *)
Definition frozen (b b' : RobotData) : Prop :=
  isDead b' = true /\ position b' = position b /\ velocity b' = velocity b /\
  rotation b' = rotation b /\ health b' = health b /\ stunnedUntil b' = stunnedUntil b.

(** The last event on the key [code] in a sequence of events, if any:
    [Some true] for a [keydown], [Some false] for a [keyup] *)
Definition lastEvent (code : string) (events : list Keyboard.KeyEvent) : option bool :=
  fold_left (fun acc e =>
               match e with
               | Keyboard.keydown c => if String.eqb c code then Some true else acc
               | Keyboard.keyup c => if String.eqb c code then Some false else acc
               end) events None.

(** * Properties *)

(** ** Comparisons, sign and [atan2] *)

Module NumFacts.
Import Num.

Lemma ltb_true a b : a < b -> ltb a b = true.
Proof. intros H. unfold ltb. destruct (Rlt_dec a b); [reflexivity | contradiction]. Qed.

Lemma ltb_false a b : ~ a < b -> ltb a b = false.
Proof. intros H. unfold ltb. destruct (Rlt_dec a b); [contradiction | reflexivity]. Qed.

Lemma ltb_spec a b : reflect (a < b) (ltb a b).
Proof. unfold ltb. destruct (Rlt_dec a b); constructor; assumption. Qed.

Lemma leb_true a b : a <= b -> leb a b = true.
Proof. intros H. unfold leb. destruct (Rle_dec a b); [reflexivity | contradiction]. Qed.

Lemma leb_false a b : ~ a <= b -> leb a b = false.
Proof. intros H. unfold leb. destruct (Rle_dec a b); [contradiction | reflexivity]. Qed.

Lemma sign_pos a : 0 < a -> sign a = 1.
Proof. intros H. unfold sign. rewrite ltb_true by assumption. reflexivity. Qed.

Lemma sign_neg a : a < 0 -> sign a = -1.
Proof.
  intros H. unfold sign. rewrite ltb_false by lra. rewrite ltb_true by assumption.
  reflexivity.
Qed.

Lemma sign_zero : sign 0 = 0.
Proof. unfold sign. rewrite !ltb_false by lra. reflexivity. Qed.

Lemma sign_abs a : sign a * Rabs a = a.
Proof.
  destruct (Rtotal_order a 0) as [H | [H | H]].
  - rewrite sign_neg, Rabs_left by assumption. lra.
  - subst a. rewrite sign_zero. lra.
  - rewrite sign_pos, Rabs_right by lra. lra.
Qed.

Lemma atan2_axis : atan2 0 1 = 0.
Proof.
  unfold atan2. rewrite ltb_true by lra.
  replace (0 / 1) with 0 by lra. apply atan_0.
Qed.

End NumFacts.

(** ** The angle loops terminate and wrap *)

Module SteeringFacts.
Import Steering.

Lemma two_pi_pos : 0 < PI * 2.
Proof. pose proof PI_RGT_0. lra. Qed.

Lemma rounds_bound d : Rabs d < PI * 2 * INR (rounds d).
Proof.
  unfold rounds. pose proof two_pi_pos as Hp.
  set (q := Rabs d / (PI * 2)).
  assert (Hq : 0 <= q).
  { unfold q. apply Rmult_le_pos; [apply Rabs_pos |].
    left. apply Rinv_0_lt_compat. exact Hp. }
  destruct (archimed q) as [Hup _].
  assert (Hz : (0 <= up q)%Z).
  { apply le_IZR. lra. }
  rewrite INR_IZR_INZ, Z2Nat.id by exact Hz.
  assert (Hd : Rabs d = q * (PI * 2)).
  { unfold q. field. lra. }
  rewrite Hd. nra.
Qed.

Lemma raise_enough n d :
  - PI <= d + PI * 2 * INR n ->
  - PI <= raise n d /\ (d < - PI -> raise n d < PI) /\ (- PI <= d -> raise n d = d).
Proof.
  revert d. induction n as [| n IH]; intros d Hn.
  - simpl in Hn. cbn [raise]. rewrite NumFacts.ltb_false by lra. lra.
  - cbn [raise]. destruct (NumFacts.ltb_spec d (- PI)) as [Hlt | Hge].
    + rewrite S_INR in Hn.
      destruct (IH (d + PI * 2)) as (H1 & H2 & H3); [lra |].
      split; [exact H1 |]. split; [| lra].
      intros _. destruct (Rlt_dec (d + PI * 2) (- PI)) as [Hs | Hs].
      * apply H2. exact Hs.
      * rewrite H3 by lra. lra.
    + lra.
Qed.

Lemma lower_enough n d :
  d - PI * 2 * INR n <= PI ->
  lower n d <= PI /\ (PI < d -> - PI < lower n d) /\ (d <= PI -> lower n d = d).
Proof.
  revert d. induction n as [| n IH]; intros d Hn.
  - simpl in Hn. cbn [lower]. rewrite NumFacts.ltb_false by lra. lra.
  - cbn [lower]. destruct (NumFacts.ltb_spec PI d) as [Hlt | Hge].
    + rewrite S_INR in Hn.
      destruct (IH (d - PI * 2)) as (H1 & H2 & H3); [lra |].
      split; [exact H1 |]. split; [| lra].
      intros _. destruct (Rlt_dec PI (d - PI * 2)) as [Hs | Hs].
      * apply H2. exact Hs.
      * rewrite H3 by lra. lra.
    + lra.
Qed.

(** More rounds than needed change nothing: the loop has stopped. *)
Lemma raise_stable n m d :
  - PI <= d + PI * 2 * INR n -> (n <= m)%nat -> raise m d = raise n d.
Proof.
  revert m d. induction n as [| n IH]; intros m d Hn Hm.
  - simpl in Hn. destruct m; cbn [raise]; rewrite NumFacts.ltb_false by lra; reflexivity.
  - destruct m as [| m]; [lia |]. cbn [raise].
    destruct (Num.ltb d (- PI)); [| reflexivity].
    apply IH; [rewrite S_INR in Hn; lra | lia].
Qed.

Lemma lower_stable n m d :
  d - PI * 2 * INR n <= PI -> (n <= m)%nat -> lower m d = lower n d.
Proof.
  revert m d. induction n as [| n IH]; intros m d Hn Hm.
  - simpl in Hn. destruct m; cbn [lower]; rewrite NumFacts.ltb_false by lra; reflexivity.
  - destruct m as [| m]; [lia |]. cbn [lower].
    destruct (Num.ltb PI d); [| reflexivity].
    apply IH; [rewrite S_INR in Hn; lra | lia].
Qed.

Lemma rounds_raise d : - PI <= d + PI * 2 * INR (rounds d).
Proof.
  pose proof (rounds_bound d) as H. pose proof (Rle_abs (- d)) as Ha.
  rewrite Rabs_Ropp in Ha. pose proof PI_RGT_0. lra.
Qed.

Lemma rounds_lower d : d - PI * 2 * INR (rounds d) <= PI.
Proof.
  pose proof (rounds_bound d) as H. pose proof (Rle_abs d) as Ha.
  pose proof PI_RGT_0. lra.
Qed.

(** [wrapUp] and [wrapDown] satisfy the equations of the two [while] loops. *)
Lemma wrapUp_loop d :
  wrapUp d = if Num.ltb d (- PI) then wrapUp (d + PI * 2) else d.
Proof.
  unfold wrapUp. destruct (NumFacts.ltb_spec d (- PI)) as [Hlt | Hge].
  - pose proof (rounds_raise d) as Hd. pose proof (rounds_raise (d + PI * 2)) as Hd'.
    set (n := rounds d) in *. set (n' := rounds (d + PI * 2)) in *.
    rewrite <- (raise_stable n (S (n + n')) d) by (assumption || lia).
    rewrite <- (raise_stable n' (n + n') (d + PI * 2)) by (assumption || lia).
    cbn [raise]. rewrite NumFacts.ltb_true by assumption. reflexivity.
  - destruct (raise_enough (rounds d) d (rounds_raise d)) as (_ & _ & H). apply H. lra.
Qed.

Lemma wrapDown_loop d :
  wrapDown d = if Num.ltb PI d then wrapDown (d - PI * 2) else d.
Proof.
  unfold wrapDown. destruct (NumFacts.ltb_spec PI d) as [Hlt | Hge].
  - pose proof (rounds_lower d) as Hd. pose proof (rounds_lower (d - PI * 2)) as Hd'.
    set (n := rounds d) in *. set (n' := rounds (d - PI * 2)) in *.
    rewrite <- (lower_stable n (S (n + n')) d) by (assumption || lia).
    rewrite <- (lower_stable n' (n + n') (d - PI * 2)) by (assumption || lia).
    cbn [lower]. rewrite NumFacts.ltb_true by assumption. reflexivity.
  - destruct (lower_enough (rounds d) d (rounds_lower d)) as (_ & _ & H). apply H. lra.
Qed.

(** Either loop moves [diff] by whole turns. *)
Lemma raise_turns n d : exists k : nat, raise n d = d + PI * 2 * INR k.
Proof.
  revert d. induction n as [| n IH]; intros d; cbn [raise].
  - exists O. simpl. destruct (Num.ltb d (- PI)); lra.
  - destruct (Num.ltb d (- PI)).
    + destruct (IH (d + PI * 2)) as [k Hk]. exists (S k). rewrite Hk, S_INR. lra.
    + exists O. simpl. lra.
Qed.

Lemma lower_turns n d : exists k : nat, lower n d = d - PI * 2 * INR k.
Proof.
  revert d. induction n as [| n IH]; intros d; cbn [lower].
  - exists O. simpl. destruct (Num.ltb PI d); lra.
  - destruct (Num.ltb PI d).
    + destruct (IH (d - PI * 2)) as [k Hk]. exists (S k). rewrite Hk, S_INR. lra.
    + exists O. simpl. lra.
Qed.

Lemma wrap_range d : - PI <= wrap d <= PI.
Proof.
  unfold wrap, wrapDown.
  destruct (raise_enough (rounds d) d (rounds_raise d)) as (Hu & _ & _).
  fold (wrapUp d) in Hu. set (u := wrapUp d) in *.
  destruct (lower_enough (rounds u) u (rounds_lower u)) as (H1 & H2 & H3).
  split; [| exact H1].
  destruct (Rlt_dec PI u) as [Hgt | Hle].
  - left. apply H2. exact Hgt.
  - rewrite H3 by lra. exact Hu.
Qed.

Lemma wrap_turns d : exists z : Z, wrap d = d + PI * 2 * IZR z.
Proof.
  unfold wrap, wrapDown, wrapUp.
  destruct (raise_turns (rounds d) d) as [a Ha]. rewrite Ha.
  destruct (lower_turns (rounds (d + PI * 2 * INR a)) (d + PI * 2 * INR a)) as [b Hb].
  rewrite Hb. exists (Z.of_nat a - Z.of_nat b)%Z.
  rewrite minus_IZR, <- !INR_IZR_INZ. lra.
Qed.

(** A difference of exactly [-PI] passes both loops unchanged. *)
Lemma wrap_minus_pi : wrap (- PI) = - PI.
Proof.
  pose proof PI_RGT_0 as Hp. unfold wrap.
  rewrite wrapUp_loop, NumFacts.ltb_false by lra.
  rewrite wrapDown_loop, NumFacts.ltb_false by lra. reflexivity.
Qed.

Lemma wrap_id d : - PI <= d <= PI -> wrap d = d.
Proof.
  intros Hd. unfold wrap.
  rewrite wrapUp_loop, NumFacts.ltb_false by lra.
  rewrite wrapDown_loop, NumFacts.ltb_false by lra. reflexivity.
Qed.

End SteeringFacts.

(** ** Enemy steering (C6) *)

Module SteerClaims.
Import Steering SteeringFacts.

Lemma aiTurn_bounds diff :
  Rabs (aiTurn diff) <= TURN_SPEED * (3 / 10) /\
  Rabs (aiTurn diff) <= Rabs diff /\
  0 <= aiTurn diff * diff.
Proof.
  unfold aiTurn, TURN_SPEED.
  set (m := Rmin (Rabs diff) (8 / 100 * (3 / 10))).
  assert (Hm1 : m <= Rabs diff) by apply Rmin_l.
  assert (Hm2 : m <= 8 / 100 * (3 / 10)) by apply Rmin_r.
  assert (Hm0 : 0 <= m).
  { unfold m. apply Rmin_glb; [apply Rabs_pos | lra]. }
  destruct (Rtotal_order diff 0) as [H | [H | H]].
  - rewrite NumFacts.sign_neg by assumption.
    replace (-1 * m) with (- m) by lra. rewrite Rabs_Ropp, (Rabs_right m) by lra.
    repeat split; try assumption. nra.
  - subst diff. rewrite NumFacts.sign_zero.
    replace (0 * m) with 0 by lra. rewrite Rabs_R0 in *. lra.
  - rewrite NumFacts.sign_pos by assumption.
    replace (1 * m) with m by lra. rewrite (Rabs_right m) by lra.
    repeat split; try assumption. nra.
Qed.

Lemma steer_enemy inp pp bot k :
  isPlayer bot = false -> stunnedUntil bot <= now inp ->
  steer inp pp bot k = enemy inp pp bot k.
Proof.
  intros Hp Hs. unfold steer. rewrite NumFacts.leb_true by assumption. rewrite Hp. reflexivity.
Qed.

Lemma enemy_fields inp pp bot k :
  rotation (fst (enemy inp pp bot k)) = rotation bot + aiTurn (aiDiff pp bot) /\
  velocity (fst (enemy inp pp bot k)) =
    (if Num.ltb (Rabs (aiDiff pp bot)) (5 / 10)
     then Vec.add (velocity bot) (aiThrust (rotation bot + aiTurn (aiDiff pp bot)))
     else velocity bot) /\
  position (fst (enemy inp pp bot k)) = position bot /\
  health (fst (enemy inp pp bot k)) = health bot /\
  isDead (fst (enemy inp pp bot k)) = isDead bot.
Proof.
  unfold enemy. destruct (isSpinner (type bot)); cbn [fst];
    [destruct (Num.ltb (random inp k) (5 / 1000)) |]; cbn; repeat split; reflexivity.
Qed.

Lemma normalize_axis : Vec.normalize (mkVector3 0 0 1) = mkVector3 0 0 1.
Proof.
  unfold Vec.normalize, Vec.length. cbn [vx vy vz].
  replace (0 * 0 + 0 * 0 + 1 * 1) with 1 by lra. rewrite sqrt_1.
  destruct (Req_dec_T 1 0) as [H | _]; [lra |].
  unfold Vec.divideScalar, Vec.multiplyScalar. cbn [vx vy vz].
  f_equal; lra.
Qed.

Lemma facingEnemy_diff : aiDiff (mkVector3 0 0 1) facingEnemy = - PI.
Proof.
  unfold aiDiff, angleToPlayer, facingEnemy, Vec.sub, Vec.zero. cbn [position rotation vx vy vz].
  replace (0 - 0) with 0 by lra. replace (1 - 0) with 1 by lra.
  rewrite normalize_axis. cbn [vx vz]. rewrite NumFacts.atan2_axis.
  replace (0 - PI) with (- PI) by lra. apply wrap_minus_pi.
Qed.

(** C6, as stated, fails at the lower end of the interval: an enemy at the
    origin that faces [PI], with the player straight ahead of angle [0], has
    the difference [-PI], which both loops leave alone, so the wrapped
    difference is not inside the half-open interval (-PI, PI]. *)
Lemma C6_counterexample :
  isPlayer facingEnemy = false /\ stunnedUntil facingEnemy <= 0 /\
  ~ (- PI < aiDiff (mkVector3 0 0 1) facingEnemy <= PI).
Proof.
  split; [reflexivity |]. split; [cbn; lra |].
  rewrite facingEnemy_diff. intros [H _]. lra.
Qed.

(** C6 (amended): for a non-stunned enemy, the difference between the bearing
    to the player and the facing is moved by whole turns into the closed
    interval [-PI, PI]; the facing changes in the direction of the difference
    by at most [TURN_SPEED * 0.3] and never by more than the difference; the
    impulse [MOVE_SPEED * ENEMY_SPEED_MULT] along the new facing is added to
    the velocity exactly when the difference is below 0.5 in absolute value. *)
Theorem C6_enemy_steering inp pp bot k :
  isPlayer bot = false -> stunnedUntil bot <= now inp ->
  let diff := aiDiff pp bot in
  let bot' := fst (steer inp pp bot k) in
  (- PI <= diff <= PI) /\
  (exists z : Z, diff = angleToPlayer pp bot - rotation bot + PI * 2 * IZR z) /\
  rotation bot' = rotation bot + aiTurn diff /\
  Rabs (aiTurn diff) <= TURN_SPEED * (3 / 10) /\
  Rabs (aiTurn diff) <= Rabs diff /\
  0 <= aiTurn diff * diff /\
  (Rabs diff < 5 / 10 -> velocity bot' = Vec.add (velocity bot) (aiThrust (rotation bot'))) /\
  (~ Rabs diff < 5 / 10 -> velocity bot' = velocity bot).
Proof.
  intros Hp Hs diff bot'. subst bot'. rewrite steer_enemy by assumption.
  destruct (enemy_fields inp pp bot k) as (Hr & Hv & _).
  destruct (aiTurn_bounds diff) as (B1 & B2 & B3).
  split; [apply wrap_range |].
  split; [apply wrap_turns |].
  split; [exact Hr |].
  repeat (split; [assumption |]).
  split; intros Hd.
  - rewrite Hv, Hr. fold diff. rewrite NumFacts.ltb_true by assumption. reflexivity.
  - rewrite Hv. fold diff. rewrite NumFacts.ltb_false by assumption. reflexivity.
Qed.

Lemma C6_enemy_steering_witness :
  let inp := mkInput (fun _ => false) 0 (fun _ => 0) in
  isPlayer facingEnemy = false /\ stunnedUntil facingEnemy <= now inp /\
  rotation (fst (steer inp (mkVector3 0 0 1) facingEnemy 0))
  = rotation facingEnemy + aiTurn (aiDiff (mkVector3 0 0 1) facingEnemy).
Proof.
  intros inp.
  assert (H1 : isPlayer facingEnemy = false) by reflexivity.
  assert (H2 : stunnedUntil facingEnemy <= now inp) by (cbn; lra).
  split; [exact H1 |]. split; [exact H2 |].
  exact (proj1 (proj2 (proj2
    (C6_enemy_steering inp (mkVector3 0 0 1) facingEnemy 0 H1 H2)))).
Defined.

End SteerClaims.

(** ** Walls and pits, one robot (C4) *)

Module PhysicsFacts.
Import Physics.

Lemma arena_numbers :
  halfSize = 11 /\ wallRange = 6 /\ bRad = 8 / 10 /\ halfSize - bRad = 102 / 10.
Proof. unfold wallRange, halfSize, bRad, ARENA_SIZE, WALL_GAP, ROBOT_RADIUS. lra. Qed.

Ltac arena :=
  unfold wallRange, halfSize, bRad, ARENA_SIZE, WALL_GAP, ROBOT_RADIUS in *.

Ltac split_abs :=
  repeat match goal with
  | |- context [Rabs ?a] => unfold Rabs; destruct (Rcase_abs a)
  | H : context [Rabs ?a] |- _ => unfold Rabs in H; destruct (Rcase_abs a)
  end.

(** The X-axis check, case by case *)
Lemma wallX_cases bot :
  let x := vx (position bot) in
  let z := vz (position bot) in
  (Rabs z < wallRange /\ halfSize - bRad < x /\ wallX bot = bounceX bot (halfSize - bRad)) \/
  (Rabs z < wallRange /\ x < - halfSize + bRad /\ wallX bot = bounceX bot (- halfSize + bRad)) \/
  (Rabs z < wallRange /\ - halfSize + bRad <= x <= halfSize - bRad /\ wallX bot = bot) \/
  (~ Rabs z < wallRange /\ wallX bot = bot).
Proof.
  intros x z. unfold wallX. fold x z.
  destruct (NumFacts.ltb_spec (Rabs z) wallRange) as [Hz | Hz]; [| right; right; right; tauto].
  destruct (NumFacts.ltb_spec (halfSize - bRad) x) as [H1 | H1]; [left; tauto |].
  destruct (NumFacts.ltb_spec x (- halfSize + bRad)) as [H2 | H2]; [right; left; tauto |].
  right; right; left. repeat split; try assumption; lra.
Qed.

Lemma wallZ_cases bot :
  let x := vx (position bot) in
  let z := vz (position bot) in
  (Rabs x < wallRange /\ halfSize - bRad < z /\ wallZ bot = bounceZ bot (halfSize - bRad)) \/
  (Rabs x < wallRange /\ z < - halfSize + bRad /\ wallZ bot = bounceZ bot (- halfSize + bRad)) \/
  (Rabs x < wallRange /\ - halfSize + bRad <= z <= halfSize - bRad /\ wallZ bot = bot) \/
  (~ Rabs x < wallRange /\ wallZ bot = bot).
Proof.
  intros x z. unfold wallZ. fold x z.
  destruct (NumFacts.ltb_spec (Rabs x) wallRange) as [Hx | Hx]; [| right; right; right; tauto].
  destruct (NumFacts.ltb_spec (halfSize - bRad) z) as [H1 | H1]; [left; tauto |].
  destruct (NumFacts.ltb_spec z (- halfSize + bRad)) as [H2 | H2]; [right; left; tauto |].
  right; right; left. repeat split; try assumption; lra.
Qed.

(** The X check leaves [z] alone and ends inside the wall wherever it applies. *)
Lemma wallX_position bot :
  vz (position (wallX bot)) = vz (position bot) /\
  vy (position (wallX bot)) = vy (position bot) /\
  (Rabs (vz (position bot)) < wallRange -> Rabs (vx (position (wallX bot))) <= halfSize - bRad) /\
  (~ Rabs (vz (position bot)) < wallRange -> vx (position (wallX bot)) = vx (position bot)).
Proof.
  destruct (wallX_cases bot) as [(Hz & Hx & ->) | [(Hz & Hx & ->) | [(Hz & Hx & ->) | (Hz & ->)]]];
    cbn [bounceX setVelocity setPosition setX position vx vy vz];
    repeat split; try reflexivity; try tauto; intros _; arena; split_abs; lra.
Qed.

Lemma wallZ_position bot :
  vx (position (wallZ bot)) = vx (position bot) /\
  vy (position (wallZ bot)) = vy (position bot) /\
  (Rabs (vx (position bot)) < wallRange -> Rabs (vz (position (wallZ bot))) <= halfSize - bRad) /\
  (~ Rabs (vx (position bot)) < wallRange -> vz (position (wallZ bot)) = vz (position bot)).
Proof.
  destruct (wallZ_cases bot) as [(Hz & Hx & ->) | [(Hz & Hx & ->) | [(Hz & Hx & ->) | (Hz & ->)]]];
    cbn [bounceZ setVelocity setPosition setZ position vx vy vz];
    repeat split; try reflexivity; try tauto; intros _; arena; split_abs; lra.
Qed.

(** After both checks: a robot beside the solid part of a wall is inside it. *)
Lemma walls_contained bot :
  (Rabs (vz (position (walls bot))) < wallRange ->
   Rabs (vx (position (walls bot))) <= halfSize - bRad) /\
  (Rabs (vx (position (walls bot))) < wallRange ->
   Rabs (vz (position (walls bot))) <= halfSize - bRad).
Proof.
  unfold walls.
  destruct (wallX_position bot) as (Xz & _ & Xin & Xout).
  destruct (wallZ_position (wallX bot)) as (Zx & _ & Zin & Zout).
  split.
  - intros Hz. rewrite Zx.
    destruct (Rlt_dec (Rabs (vx (position (wallX bot)))) wallRange) as [Hx | Hx].
    + (* the Z check ran: either it clamped z onto the wall, outside the
         solid range of the X wall, or it left z alone *)
      specialize (Zin Hx).
      destruct (wallZ_cases (wallX bot))
        as [(_ & _ & E) | [(_ & _ & E) | [(_ & _ & E) | (_ & E)]]];
        rewrite E in Hz;
        cbn [bounceZ setVelocity setPosition setZ position vx vy vz] in Hz;
        try (exfalso; arena; split_abs; lra);
        apply Xin; rewrite <- Xz; exact Hz.
    + rewrite (Zout Hx), Xz in Hz. apply Xin. exact Hz.
  - intros Hx. rewrite Zx in Hx. apply Zin. exact Hx.
Qed.

(** The same with the other-axis coordinate taken before the checks. *)
Lemma walls_contained_before bot :
  (Rabs (vz (position bot)) < wallRange ->
   Rabs (vx (position (walls bot))) <= halfSize - bRad) /\
  (Rabs (vx (position bot)) < wallRange ->
   Rabs (vz (position (walls bot))) <= halfSize - bRad).
Proof.
  unfold walls.
  destruct (wallX_position bot) as (Xz & _ & Xin & Xout).
  destruct (wallZ_position (wallX bot)) as (Zx & _ & Zin & Zout).
  split.
  - intros Hz. rewrite Zx. apply Xin. exact Hz.
  - intros Hx. apply Zin.
    destruct (wallX_cases bot) as [(_ & H & _) | [(_ & H & _) | [(_ & _ & E) | (_ & E)]]];
      try (rewrite E; exact Hx);
      exfalso; arena; split_abs; lra.
Qed.

(** C4: after integration with any velocity and the two wall checks, a robot
    whose other-axis coordinate is within the solid part of a wall (absolute
    value below [halfSize - WALL_GAP], read after or before the checks) has
    its constrained coordinate at most [halfSize - ROBOT_RADIUS] in absolute
    value; where a check clamps, the coordinate becomes exactly that bound
    and the velocity component is multiplied by -0.3. *)
Theorem C4_wall_containment :
  (forall bot,
     let b := walls (integrate bot) in
     (Rabs (vz (position b)) < halfSize - WALL_GAP ->
      Rabs (vx (position b)) <= halfSize - ROBOT_RADIUS) /\
     (Rabs (vx (position b)) < halfSize - WALL_GAP ->
      Rabs (vz (position b)) <= halfSize - ROBOT_RADIUS) /\
     (Rabs (vz (position (integrate bot))) < halfSize - WALL_GAP ->
      Rabs (vx (position b)) <= halfSize - ROBOT_RADIUS) /\
     (Rabs (vx (position (integrate bot))) < halfSize - WALL_GAP ->
      Rabs (vz (position b)) <= halfSize - ROBOT_RADIUS)) /\
  (forall bot,
     Rabs (vz (position bot)) < halfSize - WALL_GAP ->
     (halfSize - ROBOT_RADIUS < vx (position bot) ->
      vx (position (wallX bot)) = halfSize - ROBOT_RADIUS /\
      vx (velocity (wallX bot)) = vx (velocity bot) * - (3 / 10)) /\
     (vx (position bot) < - halfSize + ROBOT_RADIUS ->
      vx (position (wallX bot)) = - halfSize + ROBOT_RADIUS /\
      vx (velocity (wallX bot)) = vx (velocity bot) * - (3 / 10))) /\
  (forall bot,
     Rabs (vx (position bot)) < halfSize - WALL_GAP ->
     (halfSize - ROBOT_RADIUS < vz (position bot) ->
      vz (position (wallZ bot)) = halfSize - ROBOT_RADIUS /\
      vz (velocity (wallZ bot)) = vz (velocity bot) * - (3 / 10)) /\
     (vz (position bot) < - halfSize + ROBOT_RADIUS ->
      vz (position (wallZ bot)) = - halfSize + ROBOT_RADIUS /\
      vz (velocity (wallZ bot)) = vz (velocity bot) * - (3 / 10))).
Proof.
  split; [| split].
  - intros bot b. subst b.
    destruct (walls_contained (integrate bot)) as [A1 A2].
    destruct (walls_contained_before (integrate bot)) as [B1 B2].
    repeat split; assumption.
  - intros bot Hz. unfold wallX. fold wallRange bRad. rewrite NumFacts.ltb_true by exact Hz.
    split; intros Hx.
    + rewrite NumFacts.ltb_true by exact Hx. cbn. split; reflexivity.
    + rewrite NumFacts.ltb_false by (arena; lra). rewrite NumFacts.ltb_true by exact Hx.
      cbn. split; reflexivity.
  - intros bot Hx. unfold wallZ. fold wallRange bRad. rewrite NumFacts.ltb_true by exact Hx.
    split; intros Hz.
    + rewrite NumFacts.ltb_true by exact Hz. cbn. split; reflexivity.
    + rewrite NumFacts.ltb_false by (arena; lra). rewrite NumFacts.ltb_true by exact Hz.
      cbn. split; reflexivity.
Qed.

Lemma C4_wall_containment_witness :
  Rabs (vz (position wallRunner)) < halfSize - WALL_GAP /\
  halfSize - ROBOT_RADIUS < vx (position wallRunner) /\
  vx (position (wallX wallRunner)) = halfSize - ROBOT_RADIUS /\
  vx (velocity (wallX wallRunner)) = vx (velocity wallRunner) * - (3 / 10).
Proof.
  assert (H1 : Rabs (vz (position wallRunner)) < halfSize - WALL_GAP).
  { cbn. rewrite Rabs_R0. arena. lra. }
  assert (H2 : halfSize - ROBOT_RADIUS < vx (position wallRunner)).
  { cbn. arena. lra. }
  split; [exact H1 |]. split; [exact H2 |].
  exact (proj1 (proj1 (proj2 C4_wall_containment) wallRunner H1) H2).
Defined.

(** The pit check *)
Lemma pit_position bot : position (pit bot) = position bot.
Proof. unfold pit. destruct (isOutOfBoundsX bot || isOutOfBoundsZ bot); reflexivity. Qed.

Lemma pit_out bot :
  isOutOfBoundsX bot || isOutOfBoundsZ bot = true ->
  isDead (pit bot) = true /\ health (pit bot) = 0.
Proof. intros H. unfold pit. rewrite H. split; reflexivity. Qed.

Lemma outOfBounds_iff bot :
  isOutOfBoundsX bot || isOutOfBoundsZ bot = true <->
  halfSize + 5 / 10 < Rabs (vx (position bot)) \/ halfSize + 5 / 10 < Rabs (vz (position bot)).
Proof.
  unfold isOutOfBoundsX, isOutOfBoundsZ. rewrite orb_true_iff.
  destruct (NumFacts.ltb_spec (halfSize + 5 / 10) (Rabs (vx (position bot))));
    destruct (NumFacts.ltb_spec (halfSize + 5 / 10) (Rabs (vz (position bot))));
    intuition discriminate.
Qed.

End PhysicsFacts.

(** ** One collision (C1, C7) *)

Module CombatFacts.
Import Combat.

Lemma wound_fields t d r :
  health (wound t d r) = Rmax 0 (health r - d) /\
  stunnedUntil (wound t d r) = t + 2 / 10 /\
  maxHealth (wound t d r) = maxHealth r /\
  position (wound t d r) = position r /\
  velocity (wound t d r) = velocity r /\
  isDead (wound t d r) = (if Num.leb (Rmax 0 (health r - d)) 0 then true else isDead r).
Proof.
  unfold wound. destruct (Num.leb (Rmax 0 (health r - d)) 0); cbn; repeat split; reflexivity.
Qed.

Lemma push_fields n s kn r :
  health (push n s kn r) = health r /\ maxHealth (push n s kn r) = maxHealth r /\
  isDead (push n s kn r) = isDead r /\
  position (push n s kn r) = Vec.add (position r) (Vec.multiplyScalar n s) /\
  velocity (push n s kn r) = Vec.add (velocity r) (Vec.multiplyScalar n kn).
Proof. cbn. repeat split; reflexivity. Qed.

Lemma hit_health t r1 r2 :
  health (fst (hit t r1 r2)) = Rmax 0 (health r1 - damageFrom r2) /\
  health (snd (hit t r1 r2)) = Rmax 0 (health r2 - damageFrom r1).
Proof.
  unfold hit. cbn [fst snd].
  split; match goal with |- health (wound ?t ?d ?r) = _ =>
    rewrite (proj1 (wound_fields t d r)) end; reflexivity.
Qed.

Lemma hit_stun t r1 r2 :
  stunnedUntil (fst (hit t r1 r2)) = t + 2 / 10 /\
  stunnedUntil (snd (hit t r1 r2)) = t + 2 / 10.
Proof.
  unfold hit. cbn [fst snd].
  split; match goal with |- stunnedUntil (wound ?t ?d ?r) = _ =>
    apply (wound_fields t d r) end.
Qed.

Lemma damageFrom_pos r : 1 <= damageFrom r.
Proof. unfold damageFrom, WEAPON_DAMAGE. destruct (spinning r); lra. Qed.

(** What the inner loop does with a pair of live robots in contact *)
Lemma resolvePair_hit t (st : list RobotData) i j r1 r2 :
  i <> j -> st !! i = Some r1 -> st !! j = Some r2 ->
  isDead r1 = false -> isDead r2 = false -> touching r1 r2 = true ->
  resolvePair t st (i, j) !! i = Some (fst (hit t r1 r2)) /\
  resolvePair t st (i, j) !! j = Some (snd (hit t r1 r2)).
Proof.
  intros Hij H1 H2 D1 D2 Ht. unfold resolvePair. cbn [fst snd].
  rewrite H1, H2, D1, D2, Ht. cbn [orb].
  destruct (hit t r1 r2) as [r1' r2'] eqn:E. cbn [fst snd].
  pose proof (lookup_lt_Some _ _ _ H1) as L1.
  pose proof (lookup_lt_Some _ _ _ H2) as L2.
  split.
  - rewrite list_lookup_insert_ne by (intros ->; apply Hij; reflexivity).
    apply list_lookup_insert_eq. exact L1.
  - apply list_lookup_insert_eq. rewrite length_insert. exact L2.
Qed.

Lemma unit_apart : Vec.distanceTo (position activeSpinner) (position wornTank) = 1.
Proof.
  unfold Vec.distanceTo, Vec.length, Vec.sub. cbn [activeSpinner wornTank position vx vy vz].
  replace ((0 - 1) * (0 - 1) + (0 - 0) * (0 - 0) + (0 - 0) * (0 - 0)) with 1 by lra.
  apply sqrt_1.
Qed.

(** C1, as stated, fails where the floor of [Math.max(0, ...)] is reached: a
    live tank with health 4 that is hit by a spinner with its weapon active
    ends with health 0, so it has lost 4 and not 1 + 15. *)
Lemma C1_counterexample :
  isDead activeSpinner = false /\ isDead wornTank = false /\
  touching activeSpinner wornTank = true /\
  spinning activeSpinner = true /\
  health (snd (hit 0 activeSpinner wornTank)) = 0 /\
  health (snd (hit 0 activeSpinner wornTank)) <> health wornTank - (1 + WEAPON_DAMAGE).
Proof.
  assert (Hh : health (snd (hit 0 activeSpinner wornTank)) = 0).
  { rewrite (proj2 (hit_health 0 activeSpinner wornTank)).
    unfold damageFrom, WEAPON_DAMAGE. cbn. apply Rmax_left. lra. }
  repeat split; try reflexivity.
  - unfold touching. rewrite unit_apart. apply NumFacts.ltb_true.
    unfold minDist, ROBOT_RADIUS. lra.
  - exact Hh.
  - rewrite Hh. unfold WEAPON_DAMAGE. cbn. lra.
Qed.

(** C1 (amended): when the pair [(i, j)] of two live robots is closer than
    2.1 radii, each robot's health drops by its damage, floored at 0: the
    damage is 1, plus [WEAPON_DAMAGE] when the opponent is a spinner with its
    weapon active; it is independent of the robot's own weapon; wherever the
    health is at least the damage the loss is exactly the damage; and both
    robots get [stunnedUntil = now + 0.2]. *)
Theorem C1_collision_damage t (st : list RobotData) i j r1 r2 :
  i <> j -> st !! i = Some r1 -> st !! j = Some r2 ->
  isDead r1 = false -> isDead r2 = false ->
  Vec.distanceTo (position r1) (position r2) < ROBOT_RADIUS * (21 / 10) ->
  exists r1' r2',
    resolvePair t st (i, j) !! i = Some r1' /\
    resolvePair t st (i, j) !! j = Some r2' /\
    let d1 := if weaponActive r2 && isSpinner (type r2) then 1 + WEAPON_DAMAGE else 1 in
    let d2 := if weaponActive r1 && isSpinner (type r1) then 1 + WEAPON_DAMAGE else 1 in
    health r1' = Rmax 0 (health r1 - d1) /\
    health r2' = Rmax 0 (health r2 - d2) /\
    (d1 <= health r1 -> health r1' = health r1 - d1) /\
    (d2 <= health r2 -> health r2' = health r2 - d2) /\
    stunnedUntil r1' = t + 2 / 10 /\
    stunnedUntil r2' = t + 2 / 10.
Proof.
  intros Hij H1 H2 D1 D2 Hd.
  assert (Ht : touching r1 r2 = true) by (apply NumFacts.ltb_true; exact Hd).
  destruct (resolvePair_hit t st i j r1 r2 Hij H1 H2 D1 D2 Ht) as [E1 E2].
  exists (fst (hit t r1 r2)), (snd (hit t r1 r2)).
  destruct (hit_health t r1 r2) as [Hh1 Hh2]. destruct (hit_stun t r1 r2) as [Hs1 Hs2].
  unfold damageFrom, spinning in Hh1, Hh2.
  split; [exact E1 |]. split; [exact E2 |]. cbv zeta.
  split; [exact Hh1 |]. split; [exact Hh2 |].
  split; [| split; [| split; assumption]].
  - intros Hge. rewrite Hh1. apply Rmax_right. lra.
  - intros Hge. rewrite Hh2. apply Rmax_right. lra.
Qed.

Lemma C1_collision_damage_witness :
  let st := [activeSpinner; wornTank] in
  (0 <> 1)%nat /\ st !! 0%nat = Some activeSpinner /\ st !! 1%nat = Some wornTank /\
  isDead activeSpinner = false /\ isDead wornTank = false /\
  Vec.distanceTo (position activeSpinner) (position wornTank) < ROBOT_RADIUS * (21 / 10) /\
  exists r1' r2',
    resolvePair 0 st (0%nat, 1%nat) !! 0%nat = Some r1' /\
    resolvePair 0 st (0%nat, 1%nat) !! 1%nat = Some r2' /\
    health r1' = Rmax 0 (health activeSpinner - 1) /\
    health r2' = Rmax 0 (health wornTank - (1 + WEAPON_DAMAGE)).
Proof.
  intros st.
  assert (H0 : (0 <> 1)%nat) by discriminate.
  assert (Hd : Vec.distanceTo (position activeSpinner) (position wornTank)
               < ROBOT_RADIUS * (21 / 10)).
  { rewrite unit_apart. unfold ROBOT_RADIUS. lra. }
  repeat (split; [first [exact H0 | exact Hd | reflexivity] |]).
  destruct (C1_collision_damage 0 st 0 1 activeSpinner wornTank H0 eq_refl eq_refl
              eq_refl eq_refl Hd) as (r1' & r2' & E1 & E2 & A & B & _).
  exists r1', r2'. repeat split; assumption.
Defined.

(** *** Two robots at one position (C7) *)

Lemma add_zero_scaled v s : Vec.add v (Vec.multiplyScalar Vec.zero s) = v.
Proof.
  destruct v as [a b c]. unfold Vec.add, Vec.multiplyScalar, Vec.zero. cbn [vx vy vz].
  f_equal; lra.
Qed.

Lemma distance_same r1 r2 :
  position r1 = position r2 -> Vec.distanceTo (position r1) (position r2) = 0.
Proof.
  intros ->. unfold Vec.distanceTo, Vec.length, Vec.sub. cbn [vx vy vz].
  match goal with |- sqrt ?e = 0 => replace e with 0 by ring end.
  apply sqrt_0.
Qed.

Lemma normalOf_same r1 r2 : position r1 = position r2 -> normalOf r1 r2 = Vec.zero.
Proof.
  intros E. unfold normalOf, Vec.normalize.
  fold (Vec.distanceTo (position r1) (position r2)). rewrite (distance_same r1 r2 E).
  destruct (Req_dec_T 0 0) as [_ | N]; [| contradiction].
  rewrite E. unfold Vec.divideScalar, Vec.multiplyScalar, Vec.sub, Vec.zero. cbn [vx vy vz].
  f_equal; lra.
Qed.

(** C7, as stated, fails: for two live robots at one position the collision
    fires and the normal it uses is the zero vector, of length 0, not a unit
    vector: [normalize] of three.js divides a zero-length vector by 1. *)
Lemma C7_counterexample :
  isDead activeSpinner = false /\ isDead stackedTank = false /\
  position activeSpinner = position stackedTank /\
  touching activeSpinner stackedTank = true /\
  normalOf activeSpinner stackedTank = Vec.zero /\
  Vec.length (normalOf activeSpinner stackedTank) <> 1.
Proof.
  assert (E : position activeSpinner = position stackedTank) by reflexivity.
  repeat split; try reflexivity.
  - unfold touching. rewrite (distance_same _ _ E). apply NumFacts.ltb_true.
    unfold minDist, ROBOT_RADIUS. lra.
  - apply normalOf_same. exact E.
  - rewrite (normalOf_same _ _ E). unfold Vec.length, Vec.zero. cbn [vx vy vz].
    replace (0 * 0 + 0 * 0 + 0 * 0) with 0 by lra. rewrite sqrt_0. lra.
Qed.

(** C7 (amended): two robots at an identical position are in contact, and
    the normal of their collision is the zero vector; the separation and the
    knockback therefore leave both positions and both velocities as they
    were, while damage and stun are applied as in any other collision. *)
Theorem C7_identical_position t r1 r2 :
  position r1 = position r2 ->
  touching r1 r2 = true /\
  normalOf r1 r2 = Vec.zero /\
  position (fst (hit t r1 r2)) = position r1 /\
  position (snd (hit t r1 r2)) = position r2 /\
  velocity (fst (hit t r1 r2)) = velocity r1 /\
  velocity (snd (hit t r1 r2)) = velocity r2 /\
  health (fst (hit t r1 r2)) = Rmax 0 (health r1 - damageFrom r2) /\
  health (snd (hit t r1 r2)) = Rmax 0 (health r2 - damageFrom r1) /\
  stunnedUntil (fst (hit t r1 r2)) = t + 2 / 10 /\
  stunnedUntil (snd (hit t r1 r2)) = t + 2 / 10.
Proof.
  intros E.
  destruct (hit_health t r1 r2) as [Hh1 Hh2]. destruct (hit_stun t r1 r2) as [Hs1 Hs2].
  split.
  { unfold touching. rewrite (distance_same _ _ E). apply NumFacts.ltb_true.
    unfold minDist, ROBOT_RADIUS. lra. }
  split; [apply normalOf_same; exact E |].
  unfold hit. cbn [fst snd]. rewrite (normalOf_same _ _ E).
  repeat match goal with
  | |- context [position (wound ?a ?b ?c)] =>
      rewrite (proj1 (proj2 (proj2 (proj2 (wound_fields a b c)))))
  | |- context [velocity (wound ?a ?b ?c)] =>
      rewrite (proj1 (proj2 (proj2 (proj2 (proj2 (wound_fields a b c))))))
  end.
  cbn [push position velocity setVelocity setPosition]. rewrite !add_zero_scaled.
  unfold hit in Hh1, Hh2, Hs1, Hs2. cbn [fst snd] in Hh1, Hh2, Hs1, Hs2.
  rewrite (normalOf_same _ _ E) in Hh1, Hh2, Hs1, Hs2.
  repeat split; assumption.
Qed.

Lemma C7_identical_position_witness :
  position activeSpinner = position stackedTank /\
  normalOf activeSpinner stackedTank = Vec.zero /\
  position (fst (hit 0 activeSpinner stackedTank)) = position activeSpinner.
Proof.
  assert (E : position activeSpinner = position stackedTank) by reflexivity.
  split; [exact E |].
  pose proof (C7_identical_position 0 activeSpinner stackedTank E) as (_ & N & P & _).
  split; assumption.
Defined.

End CombatFacts.

(** ** The whole frame *)

Module FrameFacts.
Import Combat.

(** *** The match state (C5, C8) *)

Lemma findPlayer_Some rs p :
  findPlayer rs = Some p -> exists pl, rs !! p = Some pl /\ isPlayer pl = true.
Proof.
  revert p. induction rs as [| r rs IH]; intros p; cbn [findPlayer]; [discriminate |].
  destruct (isPlayer r) eqn:E.
  - intros [= <-]. exists r. split; [reflexivity | exact E].
  - destruct (findPlayer rs) as [q |]; cbn [option_map]; [| discriminate].
    intros [= <-]. destruct (IH q eq_refl) as (pl & H1 & H2). exists pl. split; assumption.
Qed.

Lemma findPlayer_None rs :
  findPlayer rs = None -> forall r, r ∈ rs -> isPlayer r = false.
Proof.
  induction rs as [| a rs IH]; cbn [findPlayer]; intros H r Hr.
  - inversion Hr.
  - destruct (isPlayer a) eqn:E; [discriminate |].
    destruct (findPlayer rs); [discriminate |].
    apply elem_of_cons in Hr as [-> | Hr]; [exact E | apply IH; [reflexivity | exact Hr]].
Qed.

Lemma useFrame_idle inp app :
  simulating app = false -> robots (useFrame inp app) = robots app.
Proof.
  unfold simulating, useFrame. destruct (isPlaying (gameState app)); cbn [negb andb]; [| reflexivity].
  destruct (findPlayer (robots app)) as [p |]; [| reflexivity].
  destruct (robots app !! p) as [pl |]; [| reflexivity].
  destruct (isDead pl); [reflexivity |].
  destruct (Nat.eqb (length (enemies (robots app))) 0); [reflexivity |].
  cbn. discriminate.
Qed.

Lemma useFrame_simulating inp app :
  simulating app = true ->
  exists p pl,
    findPlayer (robots app) = Some p /\ robots app !! p = Some pl /\
    isPlayer pl = true /\ isDead pl = false /\
    useFrame inp app =
      mkApp (decay inp (pass (now inp) (fst (movement inp p (robots app))))
                   (snd (movement inp p (robots app))))
            PLAYING.
Proof.
  unfold simulating, useFrame. destruct (isPlaying (gameState app)); cbn [negb andb]; [| discriminate].
  destruct (findPlayer (robots app)) as [p |] eqn:Ep; [| discriminate].
  destruct (findPlayer_Some _ _ Ep) as (pl & Hpl & Hip). rewrite Hpl.
  destruct (isDead pl) eqn:Ed; [discriminate |].
  destruct (Nat.eqb (length (enemies (robots app))) 0); [discriminate |].
  intros _. exists p, pl. repeat (split; [first [reflexivity | assumption] |]).
  destruct (movement inp p (robots app)) as [moved k]. reflexivity.
Qed.

(** C5: a frame reports one state: from PLAYING it reports VICTORY only with
    a live player and no live enemy, and GAME_OVER only with the player
    missing or dead, so never both; in GAME_OVER or VICTORY a frame, and any
    number of frames, returns the robots and the state as they were; only
    [initGame] leaves such a state, with a new collection of robots. *)
Theorem C5_terminal_freeze :
  (forall inp app,
     ~ (gameState (useFrame inp app) = GAME_OVER /\ gameState (useFrame inp app) = VICTORY)) /\
  (forall inp app,
     gameState app = PLAYING -> gameState (useFrame inp app) = VICTORY ->
     exists p pl, findPlayer (robots app) = Some p /\ robots app !! p = Some pl /\
                  isDead pl = false /\ enemies (robots app) = []) /\
  (forall inp app,
     gameState app = PLAYING -> gameState (useFrame inp app) = GAME_OVER ->
     forall p pl, findPlayer (robots app) = Some p -> robots app !! p = Some pl ->
                  isDead pl = true) /\
  (forall inp app,
     gameState app = GAME_OVER \/ gameState app = VICTORY -> useFrame inp app = app) /\
  (forall inps app,
     gameState app = GAME_OVER \/ gameState app = VICTORY -> frames inps app = app) /\
  (forall app app',
     gameState app = GAME_OVER \/ gameState app = VICTORY -> step app app' ->
     app' = app \/ app' = mkApp initialRobots PLAYING).
Proof.
  assert (Hone : forall inp app,
            gameState app = GAME_OVER \/ gameState app = VICTORY -> useFrame inp app = app).
  { intros inp [rs g] [H | H]; cbn in H; subst g; reflexivity. }
  split; [| split; [| split; [| split; [exact Hone | split]]]].
  - intros inp app [H1 H2]. rewrite H1 in H2. discriminate.
  - intros inp app Hg. unfold useFrame. rewrite Hg. cbn [isPlaying negb].
    destruct (findPlayer (robots app)) as [p |]; [| discriminate].
    destruct (robots app !! p) as [pl |] eqn:Hpl; [| discriminate].
    destruct (isDead pl) eqn:Hd; [discriminate |].
    destruct (Nat.eqb_spec (length (enemies (robots app))) 0) as [Hn | Hn].
    + intros _. exists p, pl. repeat split; try assumption.
      destruct (enemies (robots app)); [reflexivity | discriminate].
    + destruct (movement inp p (robots app)). discriminate.
  - intros inp app Hg. unfold useFrame. rewrite Hg. cbn [isPlaying negb].
    destruct (findPlayer (robots app)) as [p |]; [| intros _ q pl Hq; discriminate Hq].
    destruct (robots app !! p) as [pl |] eqn:Hpl;
      [| intros _ q pl' [= <-] Hq; rewrite Hpl in Hq; discriminate Hq].
    destruct (isDead pl) eqn:Hd.
    { intros _ q pl' [= <-] Hq. rewrite Hpl in Hq. injection Hq as <-. exact Hd. }
    destruct (Nat.eqb (length (enemies (robots app))) 0); [discriminate |].
    destruct (movement inp p (robots app)). discriminate.
  - intros inps. induction inps as [| inp inps IH]; intros app H; [reflexivity |].
    unfold frames. cbn [fold_left]. rewrite (Hone inp app H). apply IH. exact H.
  - intros app app' H Hs. destruct Hs as [inp app | app Hp].
    + left. apply Hone. exact H.
    + right. reflexivity.
Qed.

Lemma C5_terminal_freeze_witness :
  (gameState lostApp = GAME_OVER \/ gameState lostApp = VICTORY) /\
  useFrame (mkInput (fun _ => true) 1 (fun _ => 0)) lostApp = lostApp.
Proof.
  assert (H : gameState lostApp = GAME_OVER \/ gameState lostApp = VICTORY)
    by (left; reflexivity).
  split; [exact H |].
  exact (proj1 (proj2 (proj2 (proj2 C5_terminal_freeze)))
           (mkInput (fun _ => true) 1 (fun _ => 0)) lostApp H).
Defined.

(** C8, as stated, fails outside PLAYING: before the first [initGame] the
    collection is empty, so the player is missing, and a frame leaves the
    state at START. *)
Lemma C8_counterexample :
  findPlayer (robots initialApp) = None /\
  gameState (useFrame (mkInput (fun _ => false) 0 (fun _ => 0)) initialApp) = START /\
  gameState (useFrame (mkInput (fun _ => false) 0 (fun _ => 0)) initialApp) <> GAME_OVER.
Proof. repeat split; try reflexivity. discriminate. Qed.

(** C8 (amended): in PLAYING, a frame that finds no player in the
    collection, or finds the player dead, sets the state to GAME_OVER and
    returns the robots untouched: no steering, integration or collision.
    Outside PLAYING (START, GAME_OVER, VICTORY) a frame returns at once:
    the state and the robots are what they were, also when the player is
    missing or dead. *)
Theorem C8_player_lost inp app :
  (gameState app = PLAYING ->
   (findPlayer (robots app) = None \/
    exists p pl, findPlayer (robots app) = Some p /\ robots app !! p = Some pl /\
                 isDead pl = true) ->
   useFrame inp app = mkApp (robots app) GAME_OVER) /\
  (gameState app <> PLAYING -> useFrame inp app = app).
Proof.
  split.
  - intros Hg H. unfold useFrame. rewrite Hg. cbn [isPlaying negb].
    destruct H as [-> | (p & pl & -> & -> & ->)]; reflexivity.
  - intros Hg. unfold useFrame.
    destruct (gameState app); cbn [isPlaying negb]; [reflexivity | | reflexivity | reflexivity].
    exfalso. apply Hg. reflexivity.
Qed.

Lemma C8_player_lost_witness :
  let app := mkApp [scrappedPlayer; wornTank] PLAYING in
  let inp := mkInput (fun _ => true) 1 (fun _ => 0) in
  (gameState app = PLAYING /\
   (exists p pl, findPlayer (robots app) = Some p /\ robots app !! p = Some pl /\
                 isDead pl = true) /\
   useFrame inp app = mkApp (robots app) GAME_OVER) /\
  (gameState initialApp <> PLAYING /\ useFrame inp initialApp = initialApp).
Proof.
  intros app inp.
  assert (Hg : gameState app = PLAYING) by reflexivity.
  assert (Hp : exists p pl, findPlayer (robots app) = Some p /\ robots app !! p = Some pl /\
                            isDead pl = true).
  { exists 0%nat, scrappedPlayer. repeat split. }
  assert (Hs : gameState initialApp <> PLAYING) by discriminate.
  split.
  - split; [exact Hg |]. split; [exact Hp |].
    exact (proj1 (C8_player_lost inp app) Hg (or_intror Hp)).
  - split; [exact Hs |].
    exact (proj2 (C8_player_lost inp initialApp) Hs).
Defined.

(** *** Robot by robot: what a frame can do to one entry *)

Lemma decay_cases inp rs k :
  Forall2 (fun b b' => b' = b \/ b' = setWeaponActive false b) rs (decay inp rs k).
Proof.
  revert k. induction rs as [| b rs IH]; intros k; cbn [decay]; [constructor |].
  destruct (weaponActive b).
  - destruct (Num.ltb (random inp k) (4 / 100)); constructor; auto.
  - constructor; auto.
Qed.

Lemma stepBot_dead inp pp bot k : isDead bot = true -> stepBot inp pp bot k = (bot, k).
Proof. intros H. unfold stepBot. rewrite H. reflexivity. Qed.

Lemma stepBot_live inp pp bot k :
  isDead bot = false ->
  fst (stepBot inp pp bot k) = Physics.physics (fst (Steering.steer inp pp bot k)).
Proof.
  intros H. unfold stepBot. rewrite H.
  destruct (Steering.steer inp pp bot k) as [b1 k1]. reflexivity.
Qed.

Lemma moveAt_fst inp p (st : list RobotData) k i :
  fst (moveAt inp p (st, k) i) =
  match st !! i, st !! p with
  | Some bot, Some pl => <[i := fst (stepBot inp (position pl) bot k)]> st
  | _, _ => st
  end.
Proof.
  unfold moveAt. cbn [fst snd].
  destruct (st !! i) as [bot |]; [| reflexivity].
  destruct (st !! p) as [pl |]; [| reflexivity].
  destruct (stepBot inp (position pl) bot k) as [b1 k1]. reflexivity.
Qed.

Section Pointwise.

Variable Rel : RobotData -> RobotData -> Prop.
Hypothesis Rel_refl : forall b, Rel b b.
Hypothesis Rel_trans : forall a b c, Rel a b -> Rel b c -> Rel a c.
Hypothesis Rel_step : forall inp pp b k,
  isDead b = false -> Rel b (Physics.physics (fst (Steering.steer inp pp b k))).
Hypothesis Rel_hit : forall t r1 r2,
  isDead r1 = false -> isDead r2 = false -> touching r1 r2 = true ->
  Rel r1 (fst (hit t r1 r2)) /\ Rel r2 (snd (hit t r1 r2)).
Hypothesis Rel_weapon : forall b, Rel b (setWeaponActive false b).

Lemma Rel_same l : Forall2 Rel l l.
Proof. apply Forall_Forall2_diag. apply Forall_forall. intros x _. apply Rel_refl. Qed.

Lemma Rel_chain l1 l2 l3 : Forall2 Rel l1 l2 -> Forall2 Rel l2 l3 -> Forall2 Rel l1 l3.
Proof. apply Forall2_trans. exact Rel_trans. Qed.

Lemma Rel_insert (st : list RobotData) i b b' :
  st !! i = Some b -> Rel b b' -> Forall2 Rel st (<[i := b']> st).
Proof.
  intros Hi Hr. rewrite <- (list_insert_id st i b Hi) at 1.
  apply Forall2_insert; [apply Rel_same | exact Hr].
Qed.

Lemma stepBot_rel inp pp b k : Rel b (fst (stepBot inp pp b k)).
Proof.
  destruct (isDead b) eqn:E.
  - rewrite stepBot_dead by exact E. apply Rel_refl.
  - rewrite stepBot_live by exact E. apply Rel_step. exact E.
Qed.

Lemma moveAt_rel inp p st i : Forall2 Rel (fst st) (fst (moveAt inp p st i)).
Proof.
  destruct st as [st k]. rewrite moveAt_fst. cbn [fst].
  destruct (st !! i) as [bot |] eqn:Ei; [| apply Rel_same].
  destruct (st !! p) as [pl |]; [| apply Rel_same].
  apply (Rel_insert st i bot); [exact Ei | apply stepBot_rel].
Qed.

Lemma moves_rel inp p l st : Forall2 Rel (fst st) (fst (fold_left (moveAt inp p) l st)).
Proof.
  revert st. induction l as [| i l IH]; intros st; cbn [fold_left]; [apply Rel_same |].
  eapply Rel_chain; [apply moveAt_rel | apply IH].
Qed.

Lemma movement_rel inp p rs : Forall2 Rel rs (fst (movement inp p rs)).
Proof. unfold movement. apply (moves_rel inp p (seq 0 (length rs)) (rs, O)). Qed.

Lemma resolvePair_rel t st ij : Forall2 Rel st (resolvePair t st ij).
Proof.
  unfold resolvePair.
  destruct (st !! fst ij) as [r1 |] eqn:E1; [| apply Rel_same].
  destruct (st !! snd ij) as [r2 |] eqn:E2; [| apply Rel_same].
  destruct (isDead r1) eqn:D1; [apply Rel_same |].
  destruct (isDead r2) eqn:D2; [apply Rel_same |]. cbn [orb].
  destruct (touching r1 r2) eqn:T; [| apply Rel_same].
  destruct (Rel_hit t r1 r2 D1 D2 T) as [R1 R2].
  destruct (hit t r1 r2) as [r1' r2']. cbn [fst snd] in R1, R2.
  rewrite <- (list_insert_id st (fst ij) r1 E1) at 1.
  rewrite <- (list_insert_id (<[fst ij := r1]> st) (snd ij) r2) at 1
    by (rewrite list_insert_id by exact E1; exact E2).
  apply Forall2_insert; [apply Forall2_insert; [apply Rel_same | exact R1] | exact R2].
Qed.

Lemma pairs_rel t ps st : Forall2 Rel st (fold_left (resolvePair t) ps st).
Proof.
  revert st. induction ps as [| ij ps IH]; intros st; cbn [fold_left]; [apply Rel_same |].
  eapply Rel_chain; [apply resolvePair_rel | apply IH].
Qed.

Lemma pass_rel t rs : Forall2 Rel rs (pass t rs).
Proof. apply pairs_rel. Qed.

Lemma decay_rel inp rs k : Forall2 Rel rs (decay inp rs k).
Proof.
  eapply Forall2_impl; [apply decay_cases |].
  intros b b' [-> | ->]; [apply Rel_refl | apply Rel_weapon].
Qed.

Lemma useFrame_rel inp app : Forall2 Rel (robots app) (robots (useFrame inp app)).
Proof.
  destruct (simulating app) eqn:E.
  - destruct (useFrame_simulating inp app E) as (p & pl & _ & _ & _ & _ & ->).
    cbn [robots].
    eapply Rel_chain; [apply movement_rel |].
    eapply Rel_chain; [apply pass_rel | apply decay_rel].
  - rewrite (useFrame_idle inp app E). apply Rel_same.
Qed.

End Pointwise.

(** *** Health (C2, C10) *)

Lemma player_fields inp b :
  health (Steering.player inp b) = health b /\
  maxHealth (Steering.player inp b) = maxHealth b /\
  isDead (Steering.player inp b) = isDead b /\
  position (Steering.player inp b) = position b.
Proof. cbn. repeat split; reflexivity. Qed.

Lemma steer_fields inp pp b k :
  health (fst (Steering.steer inp pp b k)) = health b /\
  maxHealth (fst (Steering.steer inp pp b k)) = maxHealth b /\
  isDead (fst (Steering.steer inp pp b k)) = isDead b /\
  position (fst (Steering.steer inp pp b k)) = position b.
Proof.
  unfold Steering.steer. destruct (Num.leb (stunnedUntil b) (now inp)); [| cbn; tauto].
  destruct (isPlayer b); [apply player_fields |].
  unfold Steering.enemy. destruct (isSpinner (type b)); cbn [fst];
    [destruct (Num.ltb (random inp k) (5 / 1000)) |]; cbn; repeat split; reflexivity.
Qed.

Lemma walls_fields b :
  health (Physics.walls b) = health b /\
  maxHealth (Physics.walls b) = maxHealth b /\
  isDead (Physics.walls b) = isDead b.
Proof.
  unfold Physics.walls, Physics.wallZ, Physics.wallX.
  repeat match goal with |- context [if ?c then _ else _] => destruct c end;
    cbn; repeat split; reflexivity.
Qed.

Lemma physics_fields b :
  maxHealth (Physics.physics b) = maxHealth b /\
  ((health (Physics.physics b) = health b /\ isDead (Physics.physics b) = isDead b) \/
   (health (Physics.physics b) = 0 /\ isDead (Physics.physics b) = true)).
Proof.
  unfold Physics.physics, Physics.pit.
  destruct (walls_fields (Physics.integrate b)) as (H1 & H2 & H3).
  cbn [Physics.integrate setVelocity setPosition health maxHealth isDead] in H1, H2, H3.
  destruct (Physics.isOutOfBoundsX _ || Physics.isOutOfBoundsZ _).
  - cbn. split; [exact H2 | right; tauto].
  - split; [exact H2 | left; tauto].
Qed.

Lemma Fades_refl b : Fades b b.
Proof. unfold Fades. repeat split; try tauto; lra. Qed.

Lemma Fades_trans a b c : Fades a b -> Fades b c -> Fades a c.
Proof.
  intros (M1 & H1 & D1) (M2 & H2 & D2). split; [congruence |]. split.
  - intros Ha. specialize (H1 Ha). destruct H1 as [H1a H1b].
    specialize (H2 H1a). lra.
  - intros Da. destruct (D1 Da) as [Db Eb]. destruct (D2 Db) as [Dc Ec].
    split; [exact Dc | congruence].
Qed.

Lemma Fades_step inp pp b k :
  isDead b = false -> Fades b (Physics.physics (fst (Steering.steer inp pp b k))).
Proof.
  intros Hd. destruct (steer_fields inp pp b k) as (S1 & S2 & S3 & _).
  destruct (physics_fields (fst (Steering.steer inp pp b k))) as (P1 & [[P2 P3] | [P2 P3]]).
  - split; [congruence |]. split; [rewrite P2, S1; lra |].
    rewrite Hd. discriminate.
  - split; [congruence |]. split; [rewrite P2; lra |].
    rewrite Hd. discriminate.
Qed.

Lemma Fades_wound t d r : 1 <= d -> isDead r = false -> Fades r (wound t d r).
Proof.
  intros Hd Hr. destruct (CombatFacts.wound_fields t d r) as (W1 & _ & W3 & _).
  split; [exact W3 |]. split.
  - intros H0. rewrite W1. split; [apply Rmax_l |]. apply Rmax_lub; lra.
  - rewrite Hr. discriminate.
Qed.

Lemma Fades_hit t r1 r2 :
  isDead r1 = false -> isDead r2 = false -> touching r1 r2 = true ->
  Fades r1 (fst (hit t r1 r2)) /\ Fades r2 (snd (hit t r1 r2)).
Proof.
  intros D1 D2 _. unfold hit. cbn [fst snd].
  split; (eapply Fades_trans; [| apply Fades_wound;
                                  [apply CombatFacts.damageFrom_pos | exact eq_refl + assumption]]);
    unfold Fades; cbn; repeat split; try tauto; try lra; try congruence.
Qed.

Lemma Fades_weapon b : Fades b (setWeaponActive false b).
Proof. unfold Fades. cbn. repeat split; try tauto; lra. Qed.

Lemma useFrame_fades inp app : Forall2 Fades (robots app) (robots (useFrame inp app)).
Proof.
  apply useFrame_rel.
  - exact Fades_refl.
  - exact Fades_trans.
  - exact Fades_step.
  - exact Fades_hit.
  - exact Fades_weapon.
Qed.

Lemma Fades_sound b b' : Fades b b' -> sound b -> sound b'.
Proof.
  intros (M & H & _) [[H0 H1] HM]. destruct (H H0) as [Ha Hb].
  unfold sound. rewrite M. repeat split; try assumption. lra.
Qed.

Lemma initialRobots_sound : Forall sound initialRobots.
Proof.
  unfold initialRobots, ENEMY_COUNT. cbn [seq map].
  repeat constructor; cbn; unfold MAX_ROBOT_HEALTH; lra.
Qed.

Lemma reachable_sound app : reachable app -> Forall sound (robots app).
Proof.
  induction 1 as [| app app' _ IH Hs].
  - constructor.
  - destruct Hs as [inp app | app _].
    + apply Forall_forall. intros b' Hb'.
      apply list_elem_of_lookup in Hb' as [i Hi].
      destruct (Forall2_lookup_r _ _ _ _ _ (useFrame_fades inp app) Hi) as (b & Hb & HF).
      apply (Fades_sound b b' HF).
      rewrite Forall_forall in IH. apply IH. apply list_elem_of_lookup. exists i. exact Hb.
    + apply initialRobots_sound.
Qed.

(** C2: in every state the application reaches, so after every frame with
    its steering, integration, boundary and collision work, the health of
    every robot is at least 0 and at most its [maxHealth], which is the 100
    it was created with. *)
Theorem C2_health_bounds app :
  reachable app ->
  forall b, b ∈ robots app ->
    0 <= health b /\ health b <= maxHealth b /\ maxHealth b = 100.
Proof.
  intros Hr b Hb. pose proof (reachable_sound app Hr) as Hs.
  rewrite Forall_forall in Hs. destruct (Hs b Hb) as [[H0 H1] HM].
  unfold MAX_ROBOT_HEALTH in HM. repeat split; assumption.
Qed.

Lemma started_reachable : reachable (initGame initialApp).
Proof.
  apply (reach_step initialApp); [apply reach_start | apply step_init; reflexivity].
Defined.

Lemma C2_health_bounds_witness :
  reachable (initGame initialApp) /\
  0 <= health playerRobot /\ health playerRobot <= maxHealth playerRobot /\
  maxHealth playerRobot = 100.
Proof.
  split; [exact started_reachable |].
  apply (C2_health_bounds (initGame initialApp) started_reachable playerRobot).
  apply list_elem_of_here.
Defined.

(** C10: a frame run in a state the application reaches leaves every robot
    in its place in the collection with a health that is at most the health
    it had before the frame. *)
Theorem C10_health_never_increases app inp i b :
  reachable app -> robots app !! i = Some b ->
  exists b', robots (useFrame inp app) !! i = Some b' /\ health b' <= health b.
Proof.
  intros Hr Hi. pose proof (reachable_sound app Hr) as Hs.
  destruct (Forall2_lookup_l _ _ _ _ _ (useFrame_fades inp app) Hi) as (b' & Hb' & (_ & HF & _)).
  exists b'. split; [exact Hb' |].
  rewrite Forall_forall in Hs.
  assert (Hsb : sound b) by (apply Hs; apply list_elem_of_lookup; exists i; exact Hi).
  destruct Hsb as [[H0 _] _]. apply HF. exact H0.
Qed.

Lemma C10_health_never_increases_witness :
  reachable (initGame initialApp) /\
  robots (initGame initialApp) !! 0%nat = Some playerRobot /\
  exists b', robots (useFrame (mkInput (fun _ => false) 0 (fun _ => 0)) (initGame initialApp))
               !! 0%nat = Some b' /\ health b' <= health playerRobot.
Proof.
  split; [exact started_reachable |]. split; [reflexivity |].
  exact (C10_health_never_increases (initGame initialApp)
           (mkInput (fun _ => false) 0 (fun _ => 0)) 0 playerRobot
           started_reachable eq_refl).
Defined.

(** *** The first loop, entry by entry *)

(** The player's own step reads neither the player position nor a random number. *)
Lemma stepBot_player inp pp pp' pl k k' :
  isPlayer pl = true -> fst (stepBot inp pp pl k) = fst (stepBot inp pp' pl k').
Proof.
  intros Hp. unfold stepBot. destruct (isDead pl); [reflexivity |].
  unfold Steering.steer. rewrite Hp.
  destruct (Num.leb (stunnedUntil pl) (now inp)); reflexivity.
Qed.

Section Movement.

Variables (inp : FrameInput) (rs : list RobotData) (p : nat) (pl : RobotData).
Hypothesis player_at : rs !! p = Some pl.
Hypothesis player_flag : isPlayer pl = true.

Lemma visited_player a st :
  visited inp rs p a st ->
  exists x, st !! p = Some x /\ position x = playerSeen inp rs p a.
Proof.
  intros (_ & Hge & Hlt). unfold playerSeen. rewrite player_at.
  destruct (Nat.ltb_spec p a) as [Hpa | Hpa].
  - destruct (Hlt p pl Hpa player_at) as [k0 Hk0].
    eexists. split; [exact Hk0 |].
    rewrite (stepBot_player inp _ (position pl) pl k0 O player_flag). reflexivity.
  - exists pl. split; [rewrite Hge by exact Hpa; exact player_at | reflexivity].
Qed.

Lemma visited_next a st k :
  (a < length rs)%nat -> visited inp rs p a st ->
  visited inp rs p (S a) (fst (moveAt inp p (st, k) a)).
Proof.
  intros Ha Hv. destruct (visited_player a st Hv) as (x & Hx & Hpos).
  destruct Hv as (Hlen & Hge & Hlt).
  destruct (lookup_lt_is_Some_2 rs a Ha) as [bot Hbot].
  assert (Hst : st !! a = Some bot) by (rewrite Hge by lia; exact Hbot).
  rewrite moveAt_fst, Hst, Hx, Hpos.
  split; [rewrite length_insert; exact Hlen |]. split.
  - intros j Hj. rewrite list_lookup_insert_ne by lia. apply Hge. lia.
  - intros j b Hj Hb. destruct (decide (j = a)) as [-> | Hne].
    + exists k. rewrite list_lookup_insert_eq by lia. congruence.
    + rewrite list_lookup_insert_ne by lia. apply Hlt; [lia | exact Hb].
Qed.

Lemma visited_fold len a st k :
  (a + len <= length rs)%nat -> visited inp rs p a st ->
  visited inp rs p (a + len) (fst (fold_left (moveAt inp p) (seq a len) (st, k))).
Proof.
  revert a st k. induction len as [| len IH]; intros a st k Hle Hv.
  - cbn [seq fold_left fst]. rewrite Nat.add_0_r. exact Hv.
  - cbn [seq fold_left].
    destruct (moveAt inp p (st, k) a) as [st1 k1] eqn:E.
    replace (a + S len)%nat with (S a + len)%nat by lia.
    apply IH; [lia |].
    replace st1 with (fst (moveAt inp p (st, k) a)) by (rewrite E; reflexivity).
    apply visited_next; [lia | exact Hv].
Qed.

(** After the loop every entry is the step of the entry it started from. *)
Lemma movement_lookup i bot :
  rs !! i = Some bot ->
  exists k0,
    fst (movement inp p rs) !! i = Some (fst (stepBot inp (playerSeen inp rs p i) bot k0)).
Proof.
  intros Hi. unfold movement.
  assert (Hv0 : visited inp rs p 0 rs).
  { split; [reflexivity |]. split; [reflexivity | intros j b Hj; lia]. }
  pose proof (visited_fold (length rs) 0 rs O (Nat.le_refl _) Hv0) as (_ & _ & Hlt).
  apply Hlt; [| exact Hi]. apply lookup_lt_Some in Hi. lia.
Qed.

End Movement.

(** *** Pit death within the frame (C3) *)

Lemma stepBot_pit inp pp bot k :
  isDead bot = false ->
  let b := Physics.walls (Physics.integrate (fst (Steering.steer inp pp bot k))) in
  fst (stepBot inp pp bot k) = Physics.pit b /\
  position (fst (stepBot inp pp bot k)) = position b.
Proof.
  intros Hd b. rewrite stepBot_live by exact Hd. unfold Physics.physics. fold b.
  split; [reflexivity | apply PhysicsFacts.pit_position].
Qed.

(** C3: a robot that is not dead when the frame starts and whose position
    after integration and the wall checks is beyond [halfSize + 0.5] on
    either axis has [isDead = true] and [health = 0] when the frame ends,
    whatever its health and whether it is stunned or not.  The first part is
    the step of one robot, the second the whole frame: the position is the
    one the robot has after the first loop. *)
Theorem C3_pit_death :
  (forall inp pp bot k,
     isDead bot = false ->
     let b := Physics.walls (Physics.integrate (fst (Steering.steer inp pp bot k))) in
     ARENA_SIZE / 2 + 5 / 10 < Rabs (vx (position b)) \/
     ARENA_SIZE / 2 + 5 / 10 < Rabs (vz (position b)) ->
     isDead (fst (stepBot inp pp bot k)) = true /\ health (fst (stepBot inp pp bot k)) = 0) /\
  (forall inp app p i bot b1,
     simulating app = true -> findPlayer (robots app) = Some p ->
     robots app !! i = Some bot -> isDead bot = false ->
     fst (movement inp p (robots app)) !! i = Some b1 ->
     ARENA_SIZE / 2 + 5 / 10 < Rabs (vx (position b1)) \/
     ARENA_SIZE / 2 + 5 / 10 < Rabs (vz (position b1)) ->
     exists b', robots (useFrame inp app) !! i = Some b' /\
                isDead b' = true /\ health b' = 0).
Proof.
  assert (One : forall inp pp bot k,
     isDead bot = false ->
     ARENA_SIZE / 2 + 5 / 10 < Rabs (vx (position (fst (stepBot inp pp bot k)))) \/
     ARENA_SIZE / 2 + 5 / 10 < Rabs (vz (position (fst (stepBot inp pp bot k)))) ->
     isDead (fst (stepBot inp pp bot k)) = true /\ health (fst (stepBot inp pp bot k)) = 0).
  { intros inp pp bot k Hd Hout.
    destruct (stepBot_pit inp pp bot k Hd) as [E P]. rewrite P in Hout. rewrite E.
    apply PhysicsFacts.pit_out. apply PhysicsFacts.outOfBounds_iff. exact Hout. }
  split.
  - intros inp pp bot k Hd b Hout. apply One; [exact Hd |].
    rewrite (proj2 (stepBot_pit inp pp bot k Hd)). exact Hout.
  - intros inp app p i bot b1 Hsim Hp Hi Hd Hb1 Hout.
    destruct (useFrame_simulating inp app Hsim) as (p' & pl & Hp' & Hpl & Hflag & _ & ->).
    rewrite Hp in Hp'. injection Hp' as <-. cbn [robots].
    destruct (movement_lookup inp (robots app) p pl Hpl Hflag i bot Hi) as [k0 Hk0].
    rewrite Hk0 in Hb1. injection Hb1 as <-.
    destruct (One inp _ bot k0 Hd Hout) as [Dead Zero].
    destruct (Forall2_lookup_l _ _ _ _ _
                (pass_rel Fades Fades_refl Fades_trans Fades_hit (now inp)
                          (fst (movement inp p (robots app)))) Hk0)
      as (b2 & Hb2 & (_ & _ & K2)).
    destruct (K2 Dead) as [Dead2 Zero2].
    destruct (Forall2_lookup_l _ _ _ _ _
                (decay_rel Fades Fades_refl Fades_weapon inp
                           (pass (now inp) (fst (movement inp p (robots app))))
                           (snd (movement inp p (robots app)))) Hb2)
      as (b3 & Hb3 & (_ & _ & K3)).
    destruct (K3 Dead2) as [Dead3 Zero3].
    exists b3. split; [exact Hb3 |]. split; [exact Dead3 | congruence].
Qed.

Lemma walls_free b : clampFree (position b) -> Physics.walls b = b.
Proof.
  intros [HX HZ]. unfold Physics.walls.
  assert (EX : Physics.wallX b = b).
  { destruct (PhysicsFacts.wallX_cases b) as [(A & B & _) | [(A & B & _) | [(_ & _ & E) | (_ & E)]]];
      try exact E; exfalso; apply HX; tauto. }
  rewrite EX.
  destruct (PhysicsFacts.wallZ_cases b) as [(A & B & _) | [(A & B & _) | [(_ & _ & E) | (_ & E)]]];
    try exact E; exfalso; apply HZ; tauto.
Qed.

(** Where no wall check clamps, a live robot ends the first loop at its
    position plus the velocity steering has left it. *)
Lemma stepBot_position inp pp bot k :
  isDead bot = false ->
  clampFree (Vec.add (position bot) (velocity (fst (Steering.steer inp pp bot k)))) ->
  position (fst (stepBot inp pp bot k)) =
  Vec.add (position bot) (velocity (fst (Steering.steer inp pp bot k))).
Proof.
  intros Hd Hfree. destruct (stepBot_pit inp pp bot k Hd) as [_ ->].
  destruct (steer_fields inp pp bot k) as (_ & _ & _ & Hpos).
  rewrite walls_free; cbn [Physics.integrate setVelocity setPosition position];
    rewrite Hpos; [reflexivity | exact Hfree].
Qed.

Lemma C3_pit_death_witness :
  let inp := mkInput (fun _ => false) 0 (fun _ => 0) in
  let b := Physics.walls (Physics.integrate (fst (Steering.steer inp Vec.zero faller O))) in
  isDead faller = false /\
  (ARENA_SIZE / 2 + 5 / 10 < Rabs (vx (position b)) \/
   ARENA_SIZE / 2 + 5 / 10 < Rabs (vz (position b))) /\
  isDead (fst (stepBot inp Vec.zero faller O)) = true /\
  health (fst (stepBot inp Vec.zero faller O)) = 0.
Proof.
  intros inp b.
  assert (Hd : isDead faller = false) by reflexivity.
  assert (Hs : Steering.steer inp Vec.zero faller O = (faller, O)).
  { unfold Steering.steer. rewrite NumFacts.leb_false by (cbn; lra). reflexivity. }
  assert (Hb : b = Physics.integrate faller).
  { unfold b. rewrite Hs. cbn [fst]. apply walls_free.
    unfold clampFree. cbn. PhysicsFacts.arena.
    split; intros [H _]; revert H; PhysicsFacts.split_abs; lra. }
  assert (Hout : ARENA_SIZE / 2 + 5 / 10 < Rabs (vx (position b)) \/
                 ARENA_SIZE / 2 + 5 / 10 < Rabs (vz (position b))).
  { left. rewrite Hb. cbn. unfold ARENA_SIZE. PhysicsFacts.split_abs; lra. }
  split; [exact Hd |]. split; [exact Hout |].
  exact (proj1 C3_pit_death inp Vec.zero faller O Hd Hout).
Defined.

(** *** A robot at rest (C9) *)

Lemma resolvePair_miss t st ij : collides st ij = false -> resolvePair t st ij = st.
Proof.
  unfold collides, resolvePair.
  destruct (st !! fst ij) as [r1 |]; [| reflexivity].
  destruct (st !! snd ij) as [r2 |]; [| reflexivity].
  destruct (isDead r1 || isDead r2); [reflexivity |]. cbn [negb andb].
  intros ->. reflexivity.
Qed.

Lemma resolvePair_other t (st : list RobotData) ij i :
  fst ij <> i -> snd ij <> i -> resolvePair t st ij !! i = st !! i.
Proof.
  intros H1 H2. unfold resolvePair.
  destruct (st !! fst ij) as [r1 |]; [| reflexivity].
  destruct (st !! snd ij) as [r2 |]; [| reflexivity].
  destruct (isDead r1 || isDead r2); [reflexivity |].
  destruct (touching r1 r2); [| reflexivity].
  destruct (hit t r1 r2) as [r1' r2'].
  rewrite !list_lookup_insert_ne by assumption. reflexivity.
Qed.

Lemma untouched_lookup t i ps (st : list RobotData) :
  untouched t i ps st -> fold_left (resolvePair t) ps st !! i = st !! i.
Proof.
  revert st. induction ps as [| ij ps IH]; intros st; cbn [untouched fold_left]; [reflexivity |].
  intros [Hmiss Hrest]. rewrite (IH _ Hrest).
  destruct (decide (fst ij = i)) as [E1 | N1].
  - rewrite resolvePair_miss by (apply Hmiss; left; exact E1). reflexivity.
  - destruct (decide (snd ij = i)) as [E2 | N2].
    + rewrite resolvePair_miss by (apply Hmiss; right; exact E2). reflexivity.
    + apply resolvePair_other; assumption.
Qed.

(** The position a robot that is in no collision has after the frame *)
Lemma useFrame_position inp app p i bot :
  simulating app = true -> findPlayer (robots app) = Some p ->
  robots app !! i = Some bot -> calm inp app p i ->
  exists k0 b',
    robots (useFrame inp app) !! i = Some b' /\
    position b' = position (fst (stepBot inp (playerSeen inp (robots app) p i) bot k0)).
Proof.
  intros Hsim Hp Hi Hcalm.
  destruct (useFrame_simulating inp app Hsim) as (p' & pl & Hp' & Hpl & Hflag & _ & ->).
  rewrite Hp in Hp'. injection Hp' as <-. cbn [robots].
  destruct (movement_lookup inp (robots app) p pl Hpl Hflag i bot Hi) as [k0 Hk0].
  exists k0.
  assert (Hpass : pass (now inp) (fst (movement inp p (robots app))) !! i
                  = Some (fst (stepBot inp (playerSeen inp (robots app) p i) bot k0))).
  { unfold pass. rewrite (untouched_lookup _ _ _ _ Hcalm). exact Hk0. }
  destruct (Forall2_lookup_l _ _ _ _ _
              (decay_cases inp (pass (now inp) (fst (movement inp p (robots app))))
                           (snd (movement inp p (robots app)))) Hpass)
    as (b' & Hb' & Hcase).
  exists b'. split; [exact Hb' |]. destruct Hcase as [-> | ->]; reflexivity.
Qed.

Lemma add_zero v : Vec.add v Vec.zero = v.
Proof.
  destruct v as [a b c]. unfold Vec.add, Vec.zero. cbn [vx vy vz]. f_equal; lra.
Qed.

Lemma steer_thrustless inp pp bot k :
  isDead bot = false -> thrustless inp pp bot ->
  velocity (fst (Steering.steer inp pp bot k)) = velocity bot.
Proof.
  intros Hd [Hdead | [Hstun | [(Hp & Hup & Hdown) | (Hp & Hdiff)]]].
  - congruence.
  - unfold Steering.steer. rewrite NumFacts.leb_false by lra. reflexivity.
  - unfold Steering.steer. destruct (Num.leb (stunnedUntil bot) (now inp)); [| reflexivity].
    rewrite Hp. cbn [fst]. unfold Steering.player. rewrite Hup, Hdown. reflexivity.
  - unfold Steering.steer. destruct (Num.leb (stunnedUntil bot) (now inp)); [| reflexivity].
    rewrite Hp. destruct (SteerClaims.enemy_fields inp pp bot k) as (_ & -> & _).
    rewrite NumFacts.ltb_false by lra. reflexivity.
Qed.

Lemma stepBot_rest inp pp bot k :
  velocity bot = Vec.zero -> thrustless inp pp bot -> clampFree (position bot) ->
  position (fst (stepBot inp pp bot k)) = position bot.
Proof.
  intros Hv Ht Hfree. destruct (isDead bot) eqn:Hd.
  - rewrite stepBot_dead by exact Hd. reflexivity.
  - pose proof (steer_thrustless inp pp bot k Hd Ht) as Hs.
    rewrite stepBot_position; rewrite ?Hs, ?Hv, ?add_zero; auto.
Qed.

(** C9 (amended): a robot with zero velocity to which steering adds no
    impulse (it is dead or stunned, or the player with no thrust key held,
    or an enemy 0.5 rad or more off the player), which no wall check clamps
    and which has no partner within the collision distance, is at the same
    position after the frame. *)
Theorem C9_rest_position inp app i bot :
  robots app !! i = Some bot ->
  velocity bot = Vec.zero ->
  (forall p, findPlayer (robots app) = Some p ->
             thrustless inp (playerSeen inp (robots app) p i) bot /\ calm inp app p i) ->
  clampFree (position bot) ->
  exists bot', robots (useFrame inp app) !! i = Some bot' /\ position bot' = position bot.
Proof.
  intros Hi Hv Hq Hfree. destruct (simulating app) eqn:Hsim.
  - destruct (useFrame_simulating inp app Hsim) as (p & pl & Hp & _).
    destruct (Hq p Hp) as [Ht Hcalm].
    destruct (useFrame_position inp app p i bot Hsim Hp Hi Hcalm) as (k0 & b' & Hb' & Hpos).
    exists b'. split; [exact Hb' |]. rewrite Hpos. apply stepBot_rest; assumption.
  - rewrite (useFrame_idle inp app Hsim). exists bot. split; [exact Hi | reflexivity].
Qed.

Lemma free_at_rest : clampFree (position restingPlayer) /\ clampFree (position chaser).
Proof.
  unfold clampFree. cbn. PhysicsFacts.arena.
  repeat split; intros [_ [H | H]]; lra.
Qed.

Lemma restingPlayer_stays pp k :
  position (fst (stepBot noKeys pp restingPlayer k)) = mkVector3 0 0 5.
Proof.
  rewrite stepBot_rest; [reflexivity | reflexivity | | apply free_at_rest].
  right; right; left. repeat split.
Qed.

Lemma chaser_diff : Steering.aiDiff (mkVector3 0 0 5) chaser = 0.
Proof.
  unfold Steering.aiDiff, Steering.angleToPlayer.
  replace (Vec.sub (mkVector3 0 0 5) (position chaser)) with (mkVector3 0 0 5)
    by (unfold Vec.sub; cbn; f_equal; lra).
  replace (Vec.normalize (mkVector3 0 0 5)) with (mkVector3 0 0 1).
  - cbn [vx vz rotation chaser]. rewrite NumFacts.atan2_axis.
    replace (0 - 0) with 0 by lra. apply SteeringFacts.wrap_id.
    pose proof PI_RGT_0. lra.
  - unfold Vec.normalize, Vec.length. cbn [vx vy vz].
    replace (0 * 0 + 0 * 0 + 5 * 5) with (5 * 5) by lra.
    rewrite sqrt_square by lra.
    destruct (Req_dec_T 5 0) as [H | _]; [lra |].
    unfold Vec.divideScalar, Vec.multiplyScalar. cbn [vx vy vz]. f_equal; lra.
Qed.

Lemma chaser_velocity k :
  velocity (fst (Steering.steer noKeys (mkVector3 0 0 5) chaser k))
  = mkVector3 0 0 (MOVE_SPEED * ENEMY_SPEED_MULT).
Proof.
  rewrite SteerClaims.steer_enemy by (cbn; reflexivity || lra).
  destruct (SteerClaims.enemy_fields noKeys (mkVector3 0 0 5) chaser k) as (_ & -> & _).
  rewrite chaser_diff, Rabs_R0, NumFacts.ltb_true by lra.
  unfold Steering.aiTurn. rewrite NumFacts.sign_zero.
  replace (rotation chaser + 0 * Rmin (Rabs 0) (TURN_SPEED * (3 / 10))) with 0 by (cbn; lra).
  unfold Steering.aiThrust, Steering.forwardOf, Vec.multiplyScalar, Vec.add.
  cbn [vx vy vz velocity chaser Vec.zero]. rewrite sin_0, cos_0. f_equal; lra.
Qed.

Lemma chaser_moves k :
  position (fst (stepBot noKeys (mkVector3 0 0 5) chaser k))
  = mkVector3 0 0 (MOVE_SPEED * ENEMY_SPEED_MULT).
Proof.
  rewrite stepBot_position; rewrite ?chaser_velocity.
  - unfold Vec.add. cbn [vx vy vz position chaser]. f_equal; lra.
  - reflexivity.
  - unfold clampFree, Vec.add. cbn [vx vy vz position chaser].
    PhysicsFacts.arena. unfold MOVE_SPEED, ENEMY_SPEED_MULT.
    split; intros [_ [H | H]]; lra.
Qed.

(** Too far apart for the collision test *)
Lemma apart (a b : Vector3) m :
  0 <= m ->
  m * m <= (vx a - vx b) * (vx a - vx b) + (vy a - vy b) * (vy a - vy b)
           + (vz a - vz b) * (vz a - vz b) ->
  ~ Vec.distanceTo a b < m.
Proof.
  intros Hm Hle Hlt. unfold Vec.distanceTo, Vec.length, Vec.sub in Hlt. cbn [vx vy vz] in Hlt.
  apply sqrt_le_1_alt in Hle. rewrite sqrt_square in Hle by exact Hm. lra.
Qed.

Lemma duel_seen : playerSeen noKeys (robots duel) 0 1 = mkVector3 0 0 5.
Proof. unfold playerSeen. cbn [duel robots lookup list_lookup Nat.ltb Nat.leb]. apply restingPlayer_stays. Qed.

Lemma duel_calm i : calm noKeys duel 0 i.
Proof.
  unfold calm.
  destruct (movement_lookup noKeys (robots duel) 0 restingPlayer eq_refl eq_refl
              0 restingPlayer eq_refl) as [k0 H0].
  destruct (movement_lookup noKeys (robots duel) 0 restingPlayer eq_refl eq_refl
              1 chaser eq_refl) as [k1 H1].
  rewrite duel_seen in H1.
  pose proof (Forall2_length _ _ _ (movement_rel (fun _ _ => True) (fun _ => I)
                 (fun _ _ _ _ _ => I) (fun _ _ _ _ _ => I) noKeys 0 (robots duel))) as Hlen.
  set (moved := fst (movement noKeys 0 (robots duel))) in *.
  rewrite <- Hlen.
  change (pairs (length (robots duel))) with [(0, 1)]%nat.
  cbn [untouched].
  split; [| exact I]. intros _. unfold collides. cbn [fst snd]. rewrite H0, H1.
  apply andb_false_intro2. unfold touching. apply NumFacts.ltb_false.
  rewrite restingPlayer_stays, chaser_moves.
  apply apart; cbn [vx vy vz]; unfold minDist, ROBOT_RADIUS, MOVE_SPEED, ENEMY_SPEED_MULT; lra.
Qed.

(** C9, as stated, fails for an enemy that faces the player: it has zero
    velocity, no key is held, it is in no collision and beside no wall, yet
    steering gives it the forward impulse and the frame moves it. *)
Lemma C9_counterexample :
  robots duel !! 1%nat = Some chaser /\
  velocity chaser = Vec.zero /\
  (forall key, keys noKeys key = false) /\
  calm noKeys duel 0 1 /\
  clampFree (position chaser) /\
  exists bot', robots (useFrame noKeys duel) !! 1%nat = Some bot' /\
               position bot' = mkVector3 0 0 (32 / 10000) /\
               position bot' <> position chaser.
Proof.
  split; [reflexivity |]. split; [reflexivity |]. split; [reflexivity |].
  split; [apply duel_calm |]. split; [apply free_at_rest |].
  destruct (useFrame_position noKeys duel 0 1 chaser eq_refl eq_refl eq_refl (duel_calm 1))
    as (k0 & b' & Hb' & Hpos).
  rewrite duel_seen, chaser_moves in Hpos.
  exists b'. split; [exact Hb' |]. rewrite Hpos. split.
  - unfold MOVE_SPEED, ENEMY_SPEED_MULT. f_equal. lra.
  - intros E. apply (f_equal vz) in E. cbn in E.
    unfold MOVE_SPEED, ENEMY_SPEED_MULT in E. lra.
Qed.

Lemma C9_rest_position_witness :
  robots duel !! 0%nat = Some restingPlayer /\
  velocity restingPlayer = Vec.zero /\
  (forall p, findPlayer (robots duel) = Some p ->
             thrustless noKeys (playerSeen noKeys (robots duel) p 0) restingPlayer /\
             calm noKeys duel p 0) /\
  clampFree (position restingPlayer) /\
  exists bot', robots (useFrame noKeys duel) !! 0%nat = Some bot' /\
               position bot' = position restingPlayer.
Proof.
  assert (Hq : forall p, findPlayer (robots duel) = Some p ->
             thrustless noKeys (playerSeen noKeys (robots duel) p 0) restingPlayer /\
             calm noKeys duel p 0).
  { intros p Hp. injection Hp as <-. split; [| apply duel_calm].
    right; right; left. repeat split. }
  split; [reflexivity |]. split; [reflexivity |]. split; [exact Hq |].
  split; [apply free_at_rest |].
  exact (C9_rest_position noKeys duel 0 restingPlayer eq_refl eq_refl Hq (proj1 free_at_rest)).
Defined.

End FrameFacts.

(** * Further properties of the code *)

(** ** Steering *)

Module SteeringExtras.
Import Steering.

(** X1: Opposed keys.  With both turn keys held the player's facing is left as it
    was.  The two thrust keys do not cancel: the reverse impulse scales the
    vector the forward impulse has already scaled, so the velocity gains
    [MOVE_SPEED * (1 - MOVE_SPEED)] along the facing; a thrust key alone
    gives [MOVE_SPEED], forward or backward. *)
Theorem player_opposed_keys inp bot :
  let bot' := player inp bot in
  let gain s := Vec.add (velocity bot) (Vec.multiplyScalar (forwardOf (rotation bot')) s) in
  (held inp "ArrowLeft" "KeyA" = true -> held inp "ArrowRight" "KeyD" = true ->
   rotation bot' = rotation bot) /\
  (held inp "ArrowUp" "KeyW" = true -> held inp "ArrowDown" "KeyS" = true ->
   velocity bot' = gain (MOVE_SPEED * (1 - MOVE_SPEED))) /\
  (held inp "ArrowUp" "KeyW" = true -> held inp "ArrowDown" "KeyS" = false ->
   velocity bot' = gain MOVE_SPEED) /\
  (held inp "ArrowUp" "KeyW" = false -> held inp "ArrowDown" "KeyS" = true ->
   velocity bot' = gain (- MOVE_SPEED)) /\
  (held inp "ArrowUp" "KeyW" = false -> held inp "ArrowDown" "KeyS" = false ->
   velocity bot' = velocity bot).
Proof.
  intros bot' gain. subst bot' gain. cbv beta. unfold player.
  cbn [rotation velocity setWeaponActive setVelocity setRotation].
  split; [| split; [| split; [| split]]].
  - intros -> ->. lra.
  - intros -> ->. destruct (velocity bot) as [a b c].
    unfold Vec.add, Vec.multiplyScalar, forwardOf. cbn [vx vy vz]. f_equal; ring.
  - intros -> ->. reflexivity.
  - intros -> ->. reflexivity.
  - intros -> ->. reflexivity.
Qed.

Lemma player_opposed_keys_witness :
  let inp := mkInput (fun _ => true) 0 (fun _ => 0) in
  held inp "ArrowUp" "KeyW" = true /\ held inp "ArrowDown" "KeyS" = true /\
  velocity (player inp playerRobot) =
    Vec.add (velocity playerRobot)
            (Vec.multiplyScalar (forwardOf (rotation (player inp playerRobot)))
                                (MOVE_SPEED * (1 - MOVE_SPEED))).
Proof.
  intros inp. split; [reflexivity |]. split; [reflexivity |].
  exact (proj1 (proj2 (player_opposed_keys inp playerRobot)) eq_refl eq_refl).
Defined.

(** X2: Lock-on.  A non-stunned enemy whose angular difference is at most one
    turn step, [TURN_SPEED * 0.3], ends the step facing the bearing to the
    player exactly, up to whole turns; otherwise the absolute difference
    that is left is smaller by exactly one step. *)
Theorem enemy_lock_on inp pp bot k :
  isPlayer bot = false -> stunnedUntil bot <= now inp ->
  let diff := aiDiff pp bot in
  let bot' := fst (steer inp pp bot k) in
  (Rabs diff <= TURN_SPEED * (3 / 10) ->
   exists z : Z, rotation bot' = angleToPlayer pp bot + PI * 2 * IZR z) /\
  (TURN_SPEED * (3 / 10) < Rabs diff ->
   Rabs (diff - (rotation bot' - rotation bot)) = Rabs diff - TURN_SPEED * (3 / 10)).
Proof.
  intros Hp Hs diff bot'. subst bot'. rewrite SteerClaims.steer_enemy by assumption.
  destruct (SteerClaims.enemy_fields inp pp bot k) as (Hr & _). rewrite Hr. fold diff.
  unfold aiTurn. split.
  - intros Hle. rewrite Rmin_left by exact Hle. rewrite NumFacts.sign_abs.
    destruct (SteeringFacts.wrap_turns (angleToPlayer pp bot - rotation bot)) as [z Hz].
    exists z. unfold diff, aiDiff. rewrite Hz. lra.
  - intros Hgt. rewrite Rmin_right by lra.
    replace (diff - (rotation bot + Num.sign diff * (TURN_SPEED * (3 / 10)) - rotation bot))
      with (diff - Num.sign diff * (TURN_SPEED * (3 / 10))) by lra.
    assert (Hstep : 0 < TURN_SPEED * (3 / 10)) by (unfold TURN_SPEED; lra).
    destruct (Rtotal_order diff 0) as [H | [H | H]].
    + rewrite NumFacts.sign_neg by exact H. rewrite (Rabs_left diff) in * by exact H.
      rewrite Rabs_left by lra. lra.
    + subst diff. rewrite H, Rabs_R0 in Hgt. lra.
    + rewrite NumFacts.sign_pos by exact H. rewrite (Rabs_right diff) in * by lra.
      rewrite Rabs_right by lra. lra.
Qed.

Lemma enemy_lock_on_witness :
  isPlayer chaser = false /\ stunnedUntil chaser <= now noKeys /\
  Rabs (aiDiff (mkVector3 0 0 5) chaser) <= TURN_SPEED * (3 / 10) /\
  exists z : Z,
    rotation (fst (steer noKeys (mkVector3 0 0 5) chaser O))
    = angleToPlayer (mkVector3 0 0 5) chaser + PI * 2 * IZR z.
Proof.
  assert (H1 : isPlayer chaser = false) by reflexivity.
  assert (H2 : stunnedUntil chaser <= now noKeys) by (cbn; lra).
  assert (H3 : Rabs (aiDiff (mkVector3 0 0 5) chaser) <= TURN_SPEED * (3 / 10)).
  { rewrite FrameFacts.chaser_diff, Rabs_R0. unfold TURN_SPEED. lra. }
  split; [exact H1 |]. split; [exact H2 |]. split; [exact H3 |].
  exact (proj1 (enemy_lock_on noKeys (mkVector3 0 0 5) chaser O H1 H2) H3).
Defined.

(** Steering writes only the facing, the velocity and the weapon flag; it
    never switches a weapon off, and it switches one on only for the player
    or for a spinner. *)
Lemma steer_shape inp pp b k :
  let b' := fst (steer inp pp b k) in
  sameRobot b b' /\ health b' = health b /\ isDead b' = isDead b /\
  position b' = position b /\ stunnedUntil b' = stunnedUntil b /\
  (weaponActive b = true -> weaponActive b' = true) /\
  (weaponActive b' = true ->
   weaponActive b = true \/ isPlayer b = true \/ type b = spinner).
Proof.
  unfold sameRobot, steer. cbv zeta.
  destruct (Num.leb (stunnedUntil b) (now inp)); [| cbn; tauto].
  destruct (isPlayer b) eqn:Hp.
  - cbn [fst]. unfold player. cbn. rewrite Hp.
    destruct (keys inp "Space" && negb (weaponActive b)); tauto.
  - unfold enemy. destruct (type b) eqn:Ht; cbn [isSpinner fst];
      [destruct (Num.ltb (random inp k) (5 / 1000)) | |]; cbn; rewrite ?Hp, ?Ht; tauto.
Qed.

(** Integration, walls and pit write only position, velocity, health and
    the dead flag. *)
Lemma physics_shape b :
  sameRobot b (Physics.physics b) /\
  weaponActive (Physics.physics b) = weaponActive b /\
  rotation (Physics.physics b) = rotation b /\
  stunnedUntil (Physics.physics b) = stunnedUntil b.
Proof.
  unfold sameRobot, Physics.physics, Physics.pit, Physics.walls, Physics.wallZ, Physics.wallX.
  repeat match goal with |- context [if ?c then _ else _] => destruct c end;
    cbn; tauto.
Qed.

End SteeringExtras.

(** ** One collision *)

Module CombatExtras.
Import Combat.

Lemma hit_positions t r1 r2 :
  let o := minDist - Vec.distanceTo (position r1) (position r2) in
  position (fst (hit t r1 r2)) =
    Vec.add (position r1) (Vec.multiplyScalar (normalOf r1 r2) (o * (4 / 10))) /\
  position (snd (hit t r1 r2)) =
    Vec.add (position r2) (Vec.multiplyScalar (normalOf r1 r2) (- o * (4 / 10))) /\
  velocity (fst (hit t r1 r2)) =
    Vec.add (velocity r1) (Vec.multiplyScalar (normalOf r1 r2) (knockOf r1 r2)) /\
  velocity (snd (hit t r1 r2)) =
    Vec.add (velocity r2) (Vec.multiplyScalar (normalOf r1 r2) (- knockOf r1 r2)).
Proof.
  unfold hit. cbn [fst snd].
  repeat match goal with
  | |- context [position (wound ?a ?b ?c)] =>
      rewrite (proj1 (proj2 (proj2 (proj2 (CombatFacts.wound_fields a b c)))))
  | |- context [velocity (wound ?a ?b ?c)] =>
      rewrite (proj1 (proj2 (proj2 (proj2 (proj2 (CombatFacts.wound_fields a b c))))))
  end.
  cbn. repeat split; reflexivity.
Qed.

(** A collision writes neither identity, type, facing nor weapon. *)
Lemma hit_shape t r1 r2 :
  (sameRobot r1 (fst (hit t r1 r2)) /\
   weaponActive (fst (hit t r1 r2)) = weaponActive r1 /\
   rotation (fst (hit t r1 r2)) = rotation r1) /\
  (sameRobot r2 (snd (hit t r1 r2)) /\
   weaponActive (snd (hit t r1 r2)) = weaponActive r2 /\
   rotation (snd (hit t r1 r2)) = rotation r2).
Proof.
  unfold sameRobot, hit, wound. cbn [fst snd].
  repeat match goal with |- context [if Num.leb ?a ?b then _ else _] =>
    destruct (Num.leb a b) end; cbn; tauto.
Qed.

(** X3: Conservation.  A collision moves the two robots by opposite amounts and
    gives them opposite impulses: the sum of the two positions and the sum of
    the two velocities are what they were before the collision. *)
Theorem hit_conserves t r1 r2 :
  Vec.add (position (fst (hit t r1 r2))) (position (snd (hit t r1 r2)))
  = Vec.add (position r1) (position r2) /\
  Vec.add (velocity (fst (hit t r1 r2))) (velocity (snd (hit t r1 r2)))
  = Vec.add (velocity r1) (velocity r2).
Proof.
  destruct (hit_positions t r1 r2) as (-> & -> & -> & ->).
  destruct (normalOf r1 r2) as [n1 n2 n3].
  destruct (position r1) as [a1 a2 a3]. destruct (position r2) as [b1 b2 b3].
  destruct (velocity r1) as [u1 u2 u3]. destruct (velocity r2) as [w1 w2 w3].
  unfold Vec.add, Vec.multiplyScalar. cbn [vx vy vz]. split; f_equal; ring.
Qed.

(** Two points apart, each moved by [s] along the unit vector between them,
    outwards, are [2 * s] further apart. *)
Lemma separate_distance (p1 p2 : Vector3) s :
  0 < Vec.distanceTo p1 p2 -> 0 <= s ->
  Vec.distanceTo
    (Vec.add p1 (Vec.multiplyScalar (Vec.normalize (Vec.sub p1 p2)) s))
    (Vec.add p2 (Vec.multiplyScalar (Vec.normalize (Vec.sub p1 p2)) (- s)))
  = Vec.distanceTo p1 p2 + 2 * s.
Proof.
  destruct p1 as [x1 y1 z1]. destruct p2 as [x2 y2 z2].
  unfold Vec.distanceTo, Vec.normalize, Vec.divideScalar, Vec.multiplyScalar, Vec.add,
    Vec.sub, Vec.length. cbn [vx vy vz].
  set (S := (x1 - x2) * (x1 - x2) + (y1 - y2) * (y1 - y2) + (z1 - z2) * (z1 - z2)).
  remember (sqrt S) as L eqn:EL. intros HL Hs.
  destruct (Req_dec_T L 0) as [H0 | _]; [lra |].
  assert (HS : 0 <= S).
  { unfold S. pose proof (Rle_0_sqr (x1 - x2)). pose proof (Rle_0_sqr (y1 - y2)).
    pose proof (Rle_0_sqr (z1 - z2)). unfold Rsqr in *. lra. }
  assert (HLL : L * L = S) by (subst L; apply sqrt_sqrt; exact HS).
  remember (1 / L) as q eqn:Eq.
  assert (Hq : L * q = 1) by (subst q; field; lra).
  apply sqrt_lem_1.
  - match goal with |- 0 <= ?a * ?a + ?b * ?b + ?c * ?c =>
      pose proof (Rle_0_sqr a); pose proof (Rle_0_sqr b); pose proof (Rle_0_sqr c)
    end. unfold Rsqr in *. lra.
  - lra.
  - match goal with |- _ = ?e =>
      replace e with (S * (1 + 2 * q * s) * (1 + 2 * q * s)) by (unfold S; ring)
    end.
    rewrite <- HLL.
    replace (L * L * (1 + 2 * q * s) * (1 + 2 * q * s))
      with ((L + 2 * (L * q) * s) * (L + 2 * (L * q) * s)) by ring.
    rewrite Hq. ring.
Qed.

(** X4: The push alone does not separate.  Two robots at distinct positions
    and closer than the collision distance are pushed apart by 80% of their
    overlap: right after the collision is resolved, before any further
    movement, their distance is larger than it was and still below the
    collision distance.  (Whether they are in contact at the next frame's
    check depends on the velocities, the knockback among them, that the next
    integration applies.) *)
Theorem hit_leaves_contact t r1 r2 :
  let d := Vec.distanceTo (position r1) (position r2) in
  let d' := Vec.distanceTo (position (fst (hit t r1 r2))) (position (snd (hit t r1 r2))) in
  0 < d -> d < ROBOT_RADIUS * (21 / 10) ->
  d' = d + (8 / 10) * (ROBOT_RADIUS * (21 / 10) - d) /\
  d < d' /\ d' < ROBOT_RADIUS * (21 / 10) /\
  touching (fst (hit t r1 r2)) (snd (hit t r1 r2)) = true.
Proof.
  intros d d' Hpos Hlt.
  assert (Hd' : d' = d + (8 / 10) * (ROBOT_RADIUS * (21 / 10) - d)).
  { unfold d'. destruct (hit_positions t r1 r2) as (-> & -> & _).
    fold d. unfold normalOf, minDist.
    replace (- (ROBOT_RADIUS * (21 / 10) - d) * (4 / 10))
      with (- ((ROBOT_RADIUS * (21 / 10) - d) * (4 / 10))) by lra.
    rewrite separate_distance; fold d; lra. }
  split; [exact Hd' |]. split; [lra |]. split; [lra |].
  unfold touching. fold d'. apply NumFacts.ltb_true. unfold minDist. lra.
Qed.

Lemma hit_leaves_contact_witness :
  0 < Vec.distanceTo (position activeSpinner) (position wornTank) /\
  Vec.distanceTo (position activeSpinner) (position wornTank) < ROBOT_RADIUS * (21 / 10) /\
  touching (fst (hit 0 activeSpinner wornTank)) (snd (hit 0 activeSpinner wornTank)) = true.
Proof.
  assert (H1 : 0 < Vec.distanceTo (position activeSpinner) (position wornTank))
    by (rewrite CombatFacts.unit_apart; lra).
  assert (H2 : Vec.distanceTo (position activeSpinner) (position wornTank)
               < ROBOT_RADIUS * (21 / 10))
    by (rewrite CombatFacts.unit_apart; unfold ROBOT_RADIUS; lra).
  split; [exact H1 |]. split; [exact H2 |].
  exact (proj2 (proj2 (proj2 (hit_leaves_contact 0 activeSpinner wornTank H1 H2)))).
Defined.

Lemma steer_stunned inp pp b k :
  now inp < stunnedUntil b -> Steering.steer inp pp b k = (b, k).
Proof. intros H. unfold Steering.steer. rewrite NumFacts.leb_false by lra. reflexivity. Qed.

(** X5: Stun.  In every frame whose clock is below [t + 0.2], both robots of a
    collision resolved at time [t] are passed over by steering: neither keys
    nor the enemy policy change them and no random number is drawn for them;
    their step is integration, walls and pit alone. *)
Theorem hit_stuns_steering t r1 r2 inp pp k :
  now inp < t + 2 / 10 ->
  Steering.steer inp pp (fst (hit t r1 r2)) k = (fst (hit t r1 r2), k) /\
  Steering.steer inp pp (snd (hit t r1 r2)) k = (snd (hit t r1 r2), k) /\
  (isDead (fst (hit t r1 r2)) = false ->
   stepBot inp pp (fst (hit t r1 r2)) k = (Physics.physics (fst (hit t r1 r2)), k)) /\
  (isDead (snd (hit t r1 r2)) = false ->
   stepBot inp pp (snd (hit t r1 r2)) k = (Physics.physics (snd (hit t r1 r2)), k)).
Proof.
  intros Hn. destruct (CombatFacts.hit_stun t r1 r2) as [S1 S2].
  assert (E1 := steer_stunned inp pp (fst (hit t r1 r2)) k ltac:(rewrite S1; exact Hn)).
  assert (E2 := steer_stunned inp pp (snd (hit t r1 r2)) k ltac:(rewrite S2; exact Hn)).
  repeat split; try assumption.
  - intros Hd. unfold stepBot. rewrite Hd, E1. reflexivity.
  - intros Hd. unfold stepBot. rewrite Hd, E2. reflexivity.
Qed.

Lemma hit_stuns_steering_witness :
  now noKeys < 0 + 2 / 10 /\
  Steering.steer noKeys Vec.zero (fst (hit 0 activeSpinner wornTank)) O
  = (fst (hit 0 activeSpinner wornTank), O).
Proof.
  assert (H : now noKeys < 0 + 2 / 10) by (cbn; lra).
  split; [exact H |].
  exact (proj1 (hit_stuns_steering 0 activeSpinner wornTank noKeys Vec.zero O H)).
Defined.

End CombatExtras.

(** ** The frame, robot by robot *)

Module FrameExtras.
Import Combat FrameFacts.

Lemma sameRobot_refl b : sameRobot b b.
Proof. unfold sameRobot. tauto. Qed.

Lemma sameRobot_trans a b c : sameRobot a b -> sameRobot b c -> sameRobot a c.
Proof. unfold sameRobot. intros (? & ? & ? & ? & ?) (? & ? & ? & ? & ?). repeat split; congruence. Qed.

Lemma sameRobot_step inp pp b k :
  sameRobot b (Physics.physics (fst (Steering.steer inp pp b k))).
Proof.
  eapply sameRobot_trans; [apply SteeringExtras.steer_shape | apply SteeringExtras.physics_shape].
Qed.

Lemma useFrame_same inp app : Forall2 sameRobot (robots app) (robots (useFrame inp app)).
Proof.
  apply useFrame_rel.
  - exact sameRobot_refl.
  - exact sameRobot_trans.
  - intros. apply sameRobot_step.
  - intros t r1 r2 _ _ _. split; apply CombatExtras.hit_shape.
  - intros b. unfold sameRobot. cbn. tauto.
Qed.

Lemma findPlayer_same rs rs' :
  Forall2 sameRobot rs rs' -> findPlayer rs' = findPlayer rs.
Proof.
  induction 1 as [| b b' rs rs' (_ & Hp & _) _ IH]; [reflexivity |].
  cbn [findPlayer]. rewrite Hp, IH. reflexivity.
Qed.

Lemma enemies_shrink rs rs' :
  Forall2 (fun b b' => isPlayer b' = isPlayer b /\ (isDead b = true -> isDead b' = true)) rs rs' ->
  (length (enemies rs') <= length (enemies rs))%nat.
Proof.
  induction 1 as [| b b' rs rs' [Hp Hd] _ IH]; [reflexivity |].
  unfold enemies in *. cbn [List.filter]. rewrite Hp.
  destruct (isPlayer b); cbn [negb andb]; [exact IH |].
  destruct (isDead b) eqn:E; cbn [negb].
  - rewrite (Hd eq_refl). exact IH.
  - destruct (isDead b'); cbn [negb length]; lia.
Qed.

(** X7: Combatants.  The number of live enemies, which the HUD shows, is never
    larger after a frame than before it. *)
Theorem enemies_never_increase inp app :
  (length (enemies (robots (useFrame inp app))) <= length (enemies (robots app)))%nat.
Proof.
  apply enemies_shrink.
  pose proof (useFrame_same inp app) as H1. pose proof (useFrame_fades inp app) as H2.
  apply Forall2_same_length_lookup. split; [apply (Forall2_length _ _ _ H1) |].
  intros i b b' Hb Hb'.
  destruct (Forall2_lookup_lr _ _ _ _ _ _ H1 Hb Hb') as (_ & Hp & _).
  destruct (Forall2_lookup_lr _ _ _ _ _ _ H2 Hb Hb') as (_ & _ & Hd).
  split; [exact Hp | intros E; apply Hd; exact E].
Qed.

(** X6: Identity.  A frame returns a collection of the same length in which every
    robot has the [id], [isPlayer], [type], [color] and [maxHealth] it had,
    so the player is found at the index it occupied before. *)
Theorem frame_keeps_identity inp app :
  length (robots (useFrame inp app)) = length (robots app) /\
  findPlayer (robots (useFrame inp app)) = findPlayer (robots app) /\
  (forall i b, robots app !! i = Some b ->
     exists b', robots (useFrame inp app) !! i = Some b' /\
                id b' = id b /\ isPlayer b' = isPlayer b /\ type b' = type b /\
                color b' = color b /\ maxHealth b' = maxHealth b).
Proof.
  pose proof (useFrame_same inp app) as H.
  split; [symmetry; apply (Forall2_length _ _ _ H) |].
  split; [apply findPlayer_same; exact H |].
  intros i b Hi. destruct (Forall2_lookup_l _ _ _ _ _ H Hi) as (b' & Hb' & Hs).
  exists b'. split; [exact Hb' | exact Hs].
Qed.

Lemma frame_keeps_identity_witness :
  robots duel !! 1%nat = Some chaser /\
  exists b', robots (useFrame noKeys duel) !! 1%nat = Some b' /\ id b' = id chaser.
Proof.
  split; [reflexivity |].
  destruct (proj2 (proj2 (frame_keeps_identity noKeys duel)) 1%nat chaser eq_refl)
    as (b' & Hb' & Hid & _).
  exists b'. split; assumption.
Defined.

(** *** Properties every reachable robot has *)

Section Invariant.

Variable P : RobotData -> Prop.
Hypothesis P_step : forall inp pp b k,
  isDead b = false -> P b -> P (Physics.physics (fst (Steering.steer inp pp b k))).
Hypothesis P_hit : forall t r1 r2,
  isDead r1 = false -> isDead r2 = false ->
  (P r1 -> P (fst (hit t r1 r2))) /\ (P r2 -> P (snd (hit t r1 r2))).
Hypothesis P_weapon : forall b, P b -> P (setWeaponActive false b).
Hypothesis P_init : Forall P initialRobots.

Lemma frame_keeps inp app : Forall P (robots app) -> Forall P (robots (useFrame inp app)).
Proof.
  intros HP.
  assert (HR : Forall2 (fun b b' => P b -> P b') (robots app) (robots (useFrame inp app))).
  { apply useFrame_rel.
    - intros b H. exact H.
    - intros a b c H1 H2 H. apply H2, H1, H.
    - intros inp' pp b k Hd H. apply P_step; assumption.
    - intros t r1 r2 D1 D2 _. apply P_hit; assumption.
    - exact P_weapon. }
  apply Forall_forall. intros b' Hb'. apply list_elem_of_lookup in Hb' as [i Hi].
  destruct (Forall2_lookup_r _ _ _ _ _ HR Hi) as (b & Hb & Hbb').
  apply Hbb'. rewrite Forall_forall in HP. apply HP.
  apply list_elem_of_lookup. exists i. exact Hb.
Qed.

Lemma reachable_keeps app : reachable app -> Forall P (robots app).
Proof.
  induction 1 as [| app app' _ IH Hs]; [constructor |].
  destruct Hs as [inp app | app _]; [apply frame_keeps; exact IH | exact P_init].
Qed.

End Invariant.

Lemma vital_step inp pp b k :
  isDead b = false -> vital b -> vital (Physics.physics (fst (Steering.steer inp pp b k))).
Proof.
  intros Hd [Hv _]. destruct (steer_fields inp pp b k) as (S1 & _ & S3 & _).
  destruct (physics_fields (fst (Steering.steer inp pp b k))) as (_ & [[P2 P3] | [P2 P3]]);
    unfold vital; rewrite P2, P3.
  - rewrite S1, S3, Hd. split; [intros _; apply Hv; exact Hd | discriminate].
  - split; [discriminate | reflexivity].
Qed.

Lemma vital_wound t d r : isDead r = false -> vital (wound t d r).
Proof.
  intros Hd. destruct (CombatFacts.wound_fields t d r) as (W1 & _ & _ & _ & _ & W6).
  unfold vital. rewrite W1, W6.
  pose proof (Rmax_l 0 (health r - d)) as Hge.
  destruct (Num.leb (Rmax 0 (health r - d)) 0) eqn:E.
  - split; [discriminate |]. intros _.
    unfold Num.leb in E. destruct (Rle_dec (Rmax 0 (health r - d)) 0); [lra | discriminate].
  - rewrite Hd. split; [| discriminate]. intros _.
    unfold Num.leb in E. destruct (Rle_dec (Rmax 0 (health r - d)) 0); [discriminate | lra].
Qed.

Lemma initialRobots_each (P : RobotData -> Prop) :
  P playerRobot -> (forall i, P (enemyRobot i)) -> Forall P initialRobots.
Proof.
  intros Hp He. unfold initialRobots. constructor; [exact Hp |].
  apply Forall_forall. intros b Hb. apply list_elem_of_In, in_map_iff in Hb as (i & <- & _).
  apply He.
Qed.

(** X8: Dead at zero.  In every state the application reaches, a robot is dead
    exactly when its health is 0, and a live robot has positive health: a
    robot that leaves the arena alive has its health set to 0 with the flag. *)
Theorem reachable_dead_iff_zero app :
  reachable app ->
  forall b, b ∈ robots app ->
    (isDead b = true <-> health b = 0) /\ (isDead b = false <-> 0 < health b).
Proof.
  intros Hr b Hb.
  assert (Hv : Forall vital (robots app)).
  { apply reachable_keeps; try exact Hr.
    - exact vital_step.
    - intros t r1 r2 D1 D2. unfold hit. cbn [fst snd].
      split; intros _; apply vital_wound; cbn; assumption.
    - intros r Hv. exact Hv.
    - apply initialRobots_each; [| intros i]; unfold vital; cbn; unfold MAX_ROBOT_HEALTH;
        split; intros; (lra || discriminate). }
  rewrite Forall_forall in Hv. destruct (Hv b Hb) as [Ha Hz].
  destruct (isDead b) eqn:E.
  - specialize (Hz eq_refl). repeat split; intros; try assumption; try discriminate; lra.
  - specialize (Ha eq_refl). repeat split; intros; try assumption; try discriminate; lra.
Qed.

Lemma reachable_dead_iff_zero_witness :
  reachable (initGame initialApp) /\
  (isDead playerRobot = false <-> 0 < health playerRobot).
Proof.
  split; [exact started_reachable |].
  exact (proj2 (reachable_dead_iff_zero (initGame initialApp) started_reachable playerRobot
                  (list_elem_of_here _ _))).
Defined.

Lemma armed_step inp pp b k :
  isDead b = false -> armedSpinner b ->
  armedSpinner (Physics.physics (fst (Steering.steer inp pp b k))).
Proof.
  intros _ [Hp Hw].
  destruct (SteeringExtras.steer_shape inp pp b k) as ((_ & S2 & S3 & _) & _ & _ & _ & _ & _ & S7).
  destruct (SteeringExtras.physics_shape (fst (Steering.steer inp pp b k)))
    as ((_ & P2 & P3 & _) & P6 & _).
  unfold armedSpinner. rewrite P2, P3, P6, S2, S3. split; [exact Hp |].
  intros Hw'. destruct (S7 Hw') as [H | [H | H]]; auto.
Qed.

(** X9: Spinners only.  In every state the application reaches, every robot has
    its weapon off or is of type spinner: the player is a spinner, and the
    enemy policy switches the weapon on for a spinner only. *)
Theorem reachable_weapon_is_spinner app :
  reachable app ->
  forall b, b ∈ robots app -> weaponActive b = false \/ type b = spinner.
Proof.
  intros Hr b Hb.
  assert (Hv : Forall armedSpinner (robots app)).
  { apply reachable_keeps; try exact Hr.
    - exact armed_step.
    - intros t r1 r2 _ _.
      destruct (CombatExtras.hit_shape t r1 r2)
        as (((_ & A2 & A3 & _) & A6 & _) & ((_ & B2 & B3 & _) & B6 & _)).
      unfold armedSpinner. rewrite A2, A3, A6, B2, B3, B6. tauto.
    - intros r [Hp _]. unfold armedSpinner. cbn. split; [exact Hp | discriminate].
    - apply initialRobots_each; [| intros i]; unfold armedSpinner; cbn;
        split; intros; (reflexivity || discriminate). }
  rewrite Forall_forall in Hv. destruct (Hv b Hb) as [_ Hw].
  destruct (weaponActive b); [right; apply Hw; reflexivity | left; reflexivity].
Qed.

Lemma reachable_weapon_is_spinner_witness :
  reachable (initGame initialApp) /\
  (weaponActive playerRobot = false \/ type playerRobot = spinner).
Proof.
  split; [exact started_reachable |].
  exact (reachable_weapon_is_spinner (initGame initialApp) started_reachable playerRobot
           (list_elem_of_here _ _)).
Defined.

(** X10: Line-up.  Once [initGame] has run, the collection always holds four
    robots: the player, a spinner, at index 0 and nowhere else, followed by a
    tank, a wedge and a spinner; before that it is empty. *)
Theorem reachable_lineup app :
  reachable app ->
  robots app = [] \/
  (length (robots app) = 4%nat /\
   findPlayer (robots app) = Some O /\
   (forall i b, robots app !! i = Some b -> isPlayer b = true -> i = O) /\
   List.map type (robots app) = [spinner; tank; wedge; spinner]).
Proof.
  intros Hr.
  assert (H : robots app = [] \/ Forall2 sameRobot initialRobots (robots app)).
  { induction Hr as [| app app' _ IH Hs]; [left; reflexivity |].
    destruct Hs as [inp app | app _]; [| right; apply Forall_Forall2_diag, Forall_forall;
                                          intros; apply sameRobot_refl].
    pose proof (useFrame_same inp app) as Hf. destruct IH as [E | IH].
    - left. rewrite E in Hf. apply Forall2_nil_inv_l in Hf. exact Hf.
    - right. eapply Forall2_trans; [exact sameRobot_trans | exact IH | exact Hf]. }
  destruct H as [E | H]; [left; exact E | right].
  unfold initialRobots, ENEMY_COUNT in H. cbn [seq map] in H.
  apply Forall2_cons_inv_l in H as (b0 & l0 & (_ & P0 & T0 & _) & H & ->).
  apply Forall2_cons_inv_l in H as (b1 & l1 & (_ & P1 & T1 & _) & H & ->).
  apply Forall2_cons_inv_l in H as (b2 & l2 & (_ & P2 & T2 & _) & H & ->).
  apply Forall2_cons_inv_l in H as (b3 & l3 & (_ & P3 & T3 & _) & H & ->).
  apply Forall2_nil_inv_l in H as ->.
  cbn in P0, P1, P2, P3, T0, T1, T2, T3.
  split; [reflexivity |]. split; [cbn [findPlayer]; rewrite P0; reflexivity |]. split.
  - intros i b Hi Hp.
    destruct i as [| [| [| [| i]]]]; cbn in Hi; try discriminate;
      try reflexivity; injection Hi as <-; congruence.
  - cbn [List.map]. rewrite T0, T1, T2, T3. reflexivity.
Qed.

Lemma reachable_lineup_witness :
  reachable (initGame initialApp) /\ length (robots (initGame initialApp)) = 4%nat.
Proof.
  split; [exact started_reachable |].
  destruct (reachable_lineup (initGame initialApp) started_reachable) as [E | (H & _)].
  - discriminate E.
  - exact H.
Defined.

(** X11: The dead stay put.  A frame leaves a dead robot dead and leaves its
    position, velocity, facing, health and stun time as they were: it takes
    part in no steering, integration, wall, pit or collision step. *)
Theorem dead_robot_frozen inp app i b :
  robots app !! i = Some b -> isDead b = true ->
  exists b', robots (useFrame inp app) !! i = Some b' /\
             isDead b' = true /\ position b' = position b /\ velocity b' = velocity b /\
             rotation b' = rotation b /\ health b' = health b /\
             stunnedUntil b' = stunnedUntil b.
Proof.
  intros Hi Hd.
  assert (HR : Forall2 (fun b b' => isDead b = true -> frozen b b')
                       (robots app) (robots (useFrame inp app))).
  { apply useFrame_rel.
    - intros r Hr. unfold frozen. tauto.
    - intros a r c H1 H2 Ha. specialize (H1 Ha). destruct H1 as (D & E1 & E2 & E3 & E4 & E5).
      specialize (H2 D). destruct H2 as (D' & F1 & F2 & F3 & F4 & F5).
      unfold frozen. repeat split; congruence.
    - intros inp' pp r k Hr Hr'. congruence.
    - intros t r1 r2 D1 D2 _. split; intros; congruence.
    - intros r Hr. unfold frozen. cbn. tauto. }
  destruct (Forall2_lookup_l _ _ _ _ _ HR Hi) as (b' & Hb' & Hf).
  exists b'. split; [exact Hb' | exact (Hf Hd)].
Qed.

Lemma dead_robot_frozen_witness :
  let app := mkApp [restingPlayer; wreck; chaser] PLAYING in
  robots app !! 1%nat = Some wreck /\ isDead wreck = true /\
  exists b', robots (useFrame noKeys app) !! 1%nat = Some b' /\
             position b' = position wreck.
Proof.
  intros app. split; [reflexivity |]. split; [reflexivity |].
  destruct (dead_robot_frozen noKeys app 1 wreck eq_refl eq_refl)
    as (b' & Hb' & _ & Hpos & _).
  exists b'. split; assumption.
Defined.

Lemma decay_none inp rs k :
  (forall n, 4 / 100 <= random inp n) -> decay inp rs k = rs.
Proof.
  intros Hdraw. revert k. induction rs as [| b rs IH]; intros k; cbn [decay]; [reflexivity |].
  destruct (weaponActive b); rewrite IH; [| reflexivity].
  rewrite NumFacts.ltb_false by (specialize (Hdraw k); lra). reflexivity.
Qed.

Lemma decay_all inp rs k :
  (forall n, random inp n < 4 / 100) ->
  Forall (fun b => weaponActive b = false) (decay inp rs k).
Proof.
  intros Hdraw. revert k. induction rs as [| b rs IH]; intros k; cbn [decay]; [constructor |].
  destruct (weaponActive b) eqn:E.
  - rewrite NumFacts.ltb_true by apply Hdraw. constructor; [reflexivity | apply IH].
  - constructor; [exact E | apply IH].
Qed.

(** X12: Weapon decay.  When every random draw of a frame is 0.04 or more, a
    weapon that is active before the frame is active after it: only the
    decay draw switches a weapon off.  When every draw is below 0.04, no
    robot has an active weapon after a frame that simulates, whatever the
    keys and the enemy policy switched on in it. *)
Theorem weapon_decay_draws inp app :
  ((forall n, 4 / 100 <= random inp n) ->
   forall i b, robots app !! i = Some b -> weaponActive b = true ->
   exists b', robots (useFrame inp app) !! i = Some b' /\ weaponActive b' = true) /\
  ((forall n, random inp n < 4 / 100) -> simulating app = true ->
   forall b', b' ∈ robots (useFrame inp app) -> weaponActive b' = false).
Proof.
  split.
  - intros Hdraw i b Hi Hw.
    set (Rel := fun b b' : RobotData => weaponActive b = true -> weaponActive b' = true).
    assert (Rrefl : forall r, Rel r r) by (intros r H; exact H).
    assert (Rtrans : forall a r c, Rel a r -> Rel r c -> Rel a c)
      by (intros a r c H1 H2 H; apply H2, H1, H).
    destruct (simulating app) eqn:Hsim.
    + destruct (useFrame_simulating inp app Hsim) as (p & pl & _ & _ & _ & _ & ->).
      cbn [robots]. rewrite decay_none by exact Hdraw.
      assert (HR : Forall2 Rel (robots app) (pass (now inp) (fst (movement inp p (robots app))))).
      { eapply Forall2_trans; [exact Rtrans | apply movement_rel | apply pass_rel]; auto.
        - intros inp' pp r k _ H. unfold Rel.
          destruct (SteeringExtras.physics_shape (fst (Steering.steer inp' pp r k)))
            as (_ & -> & _).
          apply SteeringExtras.steer_shape. exact H.
        - intros t r1 r2 _ _ _. unfold Rel.
          destruct (CombatExtras.hit_shape t r1 r2) as ((_ & -> & _) & (_ & -> & _)). tauto. }
      destruct (Forall2_lookup_l _ _ _ _ _ HR Hi) as (b' & Hb' & Hrel).
      exists b'. split; [exact Hb' | exact (Hrel Hw)].
    + rewrite (useFrame_idle inp app Hsim). exists b. split; assumption.
  - intros Hdraw Hsim b' Hb'.
    destruct (useFrame_simulating inp app Hsim) as (p & pl & _ & _ & _ & _ & E).
    rewrite E in Hb'. cbn [robots] in Hb'.
    pose proof (decay_all inp (pass (now inp) (fst (movement inp p (robots app))))
                  (snd (movement inp p (robots app))) Hdraw) as Hall.
    rewrite Forall_forall in Hall. apply Hall. exact Hb'.
Qed.

Lemma weapon_decay_draws_witness :
  let inp := mkInput (fun _ => false) 0 (fun _ => 1) in
  let app := mkApp [activeSpinner; chaser] PLAYING in
  (forall n, 4 / 100 <= random inp n) /\
  robots app !! 0%nat = Some activeSpinner /\ weaponActive activeSpinner = true /\
  exists b', robots (useFrame inp app) !! 0%nat = Some b' /\ weaponActive b' = true.
Proof.
  intros inp app.
  assert (H : forall n, 4 / 100 <= random inp n) by (intros n; cbn; lra).
  split; [exact H |]. split; [reflexivity |]. split; [reflexivity |].
  exact (proj1 (weapon_decay_draws inp app) H 0%nat activeSpinner eq_refl eq_refl).
Defined.

(** *** Pits *)

Lemma stepBot_falls inp pp b k :
  isDead b = false -> now inp < stunnedUntil b ->
  position b = mkVector3 (114 / 10) 0 8 -> velocity b = mkVector3 (2 / 10) 0 0 ->
  isDead (fst (stepBot inp pp b k)) = true.
Proof.
  intros Hd Hs Hp Hv. destruct (stepBot_pit inp pp b k Hd) as [-> _].
  rewrite CombatExtras.steer_stunned by exact Hs. cbn [fst].
  assert (Hpos : position (Physics.integrate b) = mkVector3 (114 / 10 + 2 / 10) (0 + 0) (8 + 0)).
  { cbn. rewrite Hp, Hv. reflexivity. }
  rewrite walls_free.
  - apply PhysicsFacts.pit_out, PhysicsFacts.outOfBounds_iff. left. rewrite Hpos.
    cbn [vx]. unfold halfSize, ARENA_SIZE. PhysicsFacts.split_abs; lra.
  - rewrite Hpos. unfold clampFree. cbn [vx vy vz]. PhysicsFacts.arena.
    split; intros [H _]; revert H; PhysicsFacts.split_abs; lra.
Qed.

(** X13: Only through the gaps.  A live robot that its step of the first loop
    leaves dead has health 0 and is beyond [halfSize + 0.5] on one axis and
    at [halfSize - WALL_GAP] or further out on the other: robots fall out of
    the arena through the corner gaps only, never through a wall. *)
Theorem pit_only_through_gaps inp pp bot k :
  isDead bot = false -> isDead (fst (stepBot inp pp bot k)) = true ->
  let b' := fst (stepBot inp pp bot k) in
  health b' = 0 /\
  ((ARENA_SIZE / 2 + 5 / 10 < Rabs (vx (position b')) /\
    ARENA_SIZE / 2 - WALL_GAP <= Rabs (vz (position b'))) \/
   (ARENA_SIZE / 2 + 5 / 10 < Rabs (vz (position b')) /\
    ARENA_SIZE / 2 - WALL_GAP <= Rabs (vx (position b')))).
Proof.
  intros Hd Hdead b'. subst b'.
  destruct (stepBot_pit inp pp bot k Hd) as [E P]. rewrite P.
  set (b := Physics.walls (Physics.integrate (fst (Steering.steer inp pp bot k)))) in *.
  assert (Hb : isDead b = false).
  { unfold b. destruct (walls_fields (Physics.integrate (fst (Steering.steer inp pp bot k))))
      as (_ & _ & ->). cbn.
    destruct (steer_fields inp pp bot k) as (_ & _ & -> & _). exact Hd. }
  rewrite E in Hdead |- *.
  destruct (Physics.isOutOfBoundsX b || Physics.isOutOfBoundsZ b) eqn:Hout.
  - destruct (PhysicsFacts.pit_out b Hout) as [_ Hz]. split; [exact Hz |].
    apply PhysicsFacts.outOfBounds_iff in Hout.
    destruct (PhysicsFacts.walls_contained
                (Physics.integrate (fst (Steering.steer inp pp bot k)))) as [CX CZ].
    fold b in CX, CZ. fold halfSize. fold wallRange.
    destruct Hout as [Hx | Hz'].
    + left. split; [exact Hx |]. apply Rnot_lt_le. intros Hin. specialize (CX Hin).
      PhysicsFacts.arena. lra.
    + right. split; [exact Hz' |]. apply Rnot_lt_le. intros Hin. specialize (CZ Hin).
      PhysicsFacts.arena. lra.
  - unfold Physics.pit in Hdead. rewrite Hout in Hdead. congruence.
Qed.

Lemma pit_only_through_gaps_witness :
  isDead faller = false /\ isDead (fst (stepBot noKeys Vec.zero faller O)) = true /\
  health (fst (stepBot noKeys Vec.zero faller O)) = 0.
Proof.
  assert (H1 : isDead faller = false) by reflexivity.
  assert (H2 : isDead (fst (stepBot noKeys Vec.zero faller O)) = true).
  { apply stepBot_falls; try reflexivity. cbn. lra. }
  split; [exact H1 |]. split; [exact H2 |].
  exact (proj1 (pit_only_through_gaps noKeys Vec.zero faller O H1 H2)).
Defined.

(** *** The match state *)

Lemma enemies_none rs :
  (forall b, b ∈ rs -> isPlayer b = false -> isDead b = true) -> enemies rs = [].
Proof.
  induction rs as [| r rs IH]; intros H; [reflexivity |].
  unfold enemies in *. cbn [List.filter].
  destruct (isPlayer r) eqn:Hp; cbn [negb andb].
  - apply IH. intros b Hb. apply H. apply list_elem_of_further. exact Hb.
  - rewrite (H r (list_elem_of_here _ _) Hp). cbn [negb].
    apply IH. intros b Hb. apply H. apply list_elem_of_further. exact Hb.
Qed.

(** X14: Victory.  In PLAYING, with the player alive and every other robot dead,
    a frame sets the state to VICTORY and returns the robots untouched. *)
Theorem victory_when_no_enemy inp app p pl :
  gameState app = PLAYING ->
  findPlayer (robots app) = Some p -> robots app !! p = Some pl -> isDead pl = false ->
  (forall b, b ∈ robots app -> isPlayer b = false -> isDead b = true) ->
  useFrame inp app = mkApp (robots app) VICTORY.
Proof.
  intros Hg Hp Hpl Hd Hall. unfold useFrame.
  rewrite Hg, Hp, Hpl, Hd, (enemies_none _ Hall). reflexivity.
Qed.

Lemma victory_when_no_enemy_witness :
  let app := mkApp [restingPlayer; wreck] PLAYING in
  gameState app = PLAYING /\ findPlayer (robots app) = Some O /\
  robots app !! O = Some restingPlayer /\ isDead restingPlayer = false /\
  (forall b, b ∈ robots app -> isPlayer b = false -> isDead b = true) /\
  useFrame noKeys app = mkApp (robots app) VICTORY.
Proof.
  intros app.
  assert (Hall : forall b, b ∈ robots app -> isPlayer b = false -> isDead b = true).
  { intros b Hb Hp. cbn in Hb.
    apply elem_of_cons in Hb as [-> | Hb]; [discriminate Hp |].
    apply elem_of_cons in Hb as [-> | Hb]; [reflexivity | inversion Hb]. }
  repeat (split; [first [reflexivity | exact Hall] |]).
  exact (victory_when_no_enemy noKeys app O restingPlayer eq_refl eq_refl eq_refl eq_refl Hall).
Defined.

Lemma moved_dead_stays inp app p i b1 :
  simulating app = true -> findPlayer (robots app) = Some p ->
  fst (movement inp p (robots app)) !! i = Some b1 -> isDead b1 = true ->
  exists b', robots (useFrame inp app) !! i = Some b' /\ isDead b' = true.
Proof.
  intros Hsim Hp Hb1 Hd.
  destruct (useFrame_simulating inp app Hsim) as (p' & pl & Hp' & _ & _ & _ & ->).
  rewrite Hp in Hp'. injection Hp' as <-. cbn [robots].
  destruct (Forall2_lookup_l _ _ _ _ _
              (pass_rel Fades Fades_refl Fades_trans Fades_hit (now inp)
                        (fst (movement inp p (robots app)))) Hb1)
    as (b2 & Hb2 & (_ & _ & K2)).
  destruct (K2 Hd) as [Dead2 _].
  destruct (Forall2_lookup_l _ _ _ _ _
              (decay_rel Fades Fades_refl Fades_weapon inp
                         (pass (now inp) (fst (movement inp p (robots app))))
                         (snd (movement inp p (robots app)))) Hb2)
    as (b3 & Hb3 & (_ & _ & K3)).
  exists b3. split; [exact Hb3 | apply K3; exact Dead2].
Qed.

(** X15: A loss shows one frame late.  A frame that simulates always leaves the
    state at PLAYING, also when the player dies in it; if the player is dead
    in the robots it returns, the next frame sets GAME_OVER and returns
    those robots as they are. *)
Theorem loss_reported_next_frame inp inp2 app :
  simulating app = true ->
  gameState (useFrame inp app) = PLAYING /\
  (forall p pl', findPlayer (robots app) = Some p ->
     robots (useFrame inp app) !! p = Some pl' -> isDead pl' = true ->
     useFrame inp2 (useFrame inp app) = mkApp (robots (useFrame inp app)) GAME_OVER).
Proof.
  intros Hsim.
  assert (Hg : gameState (useFrame inp app) = PLAYING).
  { destruct (useFrame_simulating inp app Hsim) as (p & pl & _ & _ & _ & _ & ->). reflexivity. }
  split; [exact Hg |]. intros p pl' Hp Hpl' Hd.
  unfold useFrame at 1. rewrite Hg. cbn [isPlaying negb].
  rewrite (findPlayer_same _ _ (useFrame_same inp app)), Hp, Hpl', Hd. reflexivity.
Qed.

Lemma loss_reported_next_frame_witness :
  let app := mkApp [fallingPlayer; chaser] PLAYING in
  simulating app = true /\ findPlayer (robots app) = Some O /\
  exists pl', robots (useFrame noKeys app) !! O = Some pl' /\ isDead pl' = true /\
              useFrame noKeys (useFrame noKeys app) = mkApp (robots (useFrame noKeys app)) GAME_OVER.
Proof.
  intros app.
  assert (Hsim : simulating app = true) by reflexivity.
  split; [exact Hsim |]. split; [reflexivity |].
  destruct (movement_lookup noKeys (robots app) O fallingPlayer eq_refl eq_refl
              O fallingPlayer eq_refl) as [k0 H0].
  assert (Hdead : isDead (fst (stepBot noKeys (playerSeen noKeys (robots app) 0 0)
                                       fallingPlayer k0)) = true).
  { apply stepBot_falls; try reflexivity. cbn. lra. }
  destruct (moved_dead_stays noKeys app O O _ Hsim eq_refl H0 Hdead) as (pl' & Hpl' & Hd').
  exists pl'. split; [exact Hpl' |]. split; [exact Hd' |].
  exact (proj2 (loss_reported_next_frame noKeys noKeys app Hsim) O pl' eq_refl Hpl' Hd').
Defined.

(** *** Robots out of contact *)

(** X16: Nothing in contact.  When no pair of the collection is a pair of live
    robots closer than the collision distance, the collision loop returns
    the collection as it is. *)
Theorem pass_apart t rs :
  (forall ij, ij ∈ pairs (length rs) -> collides rs ij = false) -> pass t rs = rs.
Proof.
  unfold pass. generalize (pairs (length rs)). intros ps.
  induction ps as [| ij ps IH]; intros H; cbn [fold_left]; [reflexivity |].
  rewrite resolvePair_miss by (apply H, list_elem_of_here).
  apply IH. intros ij' Hin. apply H, list_elem_of_further, Hin.
Qed.

Lemma duel_apart : touching restingPlayer chaser = false.
Proof.
  unfold touching. apply NumFacts.ltb_false. apply apart; cbn [vx vy vz position restingPlayer chaser];
    unfold minDist, ROBOT_RADIUS; lra.
Qed.

Lemma pass_apart_witness :
  (forall ij, ij ∈ pairs (length (robots duel)) -> collides (robots duel) ij = false) /\
  pass 0 (robots duel) = robots duel.
Proof.
  assert (H : forall ij, ij ∈ pairs (length (robots duel)) -> collides (robots duel) ij = false).
  { intros ij Hin. change (pairs (length (robots duel))) with [(0, 1)]%nat in Hin.
    apply list_elem_of_singleton in Hin as ->.
    unfold collides. cbn. exact duel_apart. }
  split; [exact H | exact (pass_apart 0 (robots duel) H)].
Defined.

Lemma useFrame_untouched inp app p i bot :
  simulating app = true -> findPlayer (robots app) = Some p ->
  robots app !! i = Some bot -> calm inp app p i ->
  exists k0 b',
    let s := fst (stepBot inp (playerSeen inp (robots app) p i) bot k0) in
    fst (movement inp p (robots app)) !! i = Some s /\
    robots (useFrame inp app) !! i = Some b' /\
    (b' = s \/ b' = setWeaponActive false s).
Proof.
  intros Hsim Hp Hi Hcalm.
  destruct (useFrame_simulating inp app Hsim) as (p' & pl & Hp' & Hpl & Hflag & _ & ->).
  rewrite Hp in Hp'. injection Hp' as <-. cbn [robots].
  destruct (movement_lookup inp (robots app) p pl Hpl Hflag i bot Hi) as [k0 Hk0].
  exists k0.
  assert (Hpass : pass (now inp) (fst (movement inp p (robots app))) !! i
                  = Some (fst (stepBot inp (playerSeen inp (robots app) p i) bot k0))).
  { unfold pass. rewrite (untouched_lookup _ _ _ _ Hcalm). exact Hk0. }
  destruct (Forall2_lookup_l _ _ _ _ _
              (decay_cases inp (pass (now inp) (fst (movement inp p (robots app))))
                           (snd (movement inp p (robots app)))) Hpass)
    as (b' & Hb' & Hcase).
  exists b'. cbv zeta. split; [exact Hk0 |]. split; [exact Hb' | exact Hcase].
Qed.

(** X17: No damage without contact.  A robot that is in no collision of a frame
    and is alive after the first loop ends the frame alive, with the health
    and the stun time it had before the frame: health is taken only by a
    collision or by the pit. *)
Theorem no_contact_no_damage inp app p i bot b1 :
  simulating app = true -> findPlayer (robots app) = Some p ->
  robots app !! i = Some bot -> calm inp app p i ->
  fst (movement inp p (robots app)) !! i = Some b1 -> isDead b1 = false ->
  exists b', robots (useFrame inp app) !! i = Some b' /\
             isDead b' = false /\ health b' = health bot /\
             stunnedUntil b' = stunnedUntil bot.
Proof.
  intros Hsim Hp Hi Hcalm Hb1 Hlive.
  destruct (useFrame_untouched inp app p i bot Hsim Hp Hi Hcalm) as (k0 & b' & Hs & Hb' & Hcase).
  cbv zeta in Hs, Hcase. rewrite Hs in Hb1. injection Hb1 as Hb1.
  set (pp := playerSeen inp (robots app) p i) in *.
  assert (Hbot : isDead bot = false).
  { destruct (isDead bot) eqn:E; [| reflexivity].
    rewrite stepBot_dead in Hb1 by exact E. cbn in Hb1. congruence. }
  assert (Hfields : isDead (fst (stepBot inp pp bot k0)) = false /\
                    health (fst (stepBot inp pp bot k0)) = health bot /\
                    stunnedUntil (fst (stepBot inp pp bot k0)) = stunnedUntil bot).
  { rewrite Hb1. split; [exact Hlive |]. rewrite <- Hb1, stepBot_live by exact Hbot.
    destruct (steer_fields inp pp bot k0) as (S1 & _ & S3 & _).
    destruct (SteeringExtras.steer_shape inp pp bot k0) as (_ & _ & _ & _ & S5 & _).
    destruct (SteeringExtras.physics_shape (fst (Steering.steer inp pp bot k0))) as (_ & _ & _ & P4).
    rewrite P4, S5. split; [| reflexivity].
    destruct (physics_fields (fst (Steering.steer inp pp bot k0))) as (_ & [[P2 _] | [_ P3]]).
    - rewrite P2. exact S1.
    - rewrite <- stepBot_live in P3 by exact Hbot. rewrite Hb1 in P3. congruence. }
  exists b'. split; [exact Hb' |]. destruct Hcase as [-> | ->]; exact Hfields.
Qed.

Lemma stepBot_survives inp pp bot k :
  isDead bot = false ->
  Rabs (vx (position (fst (stepBot inp pp bot k)))) <= halfSize + 5 / 10 ->
  Rabs (vz (position (fst (stepBot inp pp bot k)))) <= halfSize + 5 / 10 ->
  isDead (fst (stepBot inp pp bot k)) = false.
Proof.
  intros Hd Hx Hz. destruct (stepBot_pit inp pp bot k Hd) as [E P]. rewrite P in Hx, Hz.
  rewrite E. unfold Physics.pit.
  destruct (Physics.isOutOfBoundsX _ || Physics.isOutOfBoundsZ _) eqn:Hout.
  - apply PhysicsFacts.outOfBounds_iff in Hout. lra.
  - destruct (walls_fields (Physics.integrate (fst (Steering.steer inp pp bot k))))
      as (_ & _ & ->). cbn.
    destruct (steer_fields inp pp bot k) as (_ & _ & -> & _). exact Hd.
Qed.

Lemma no_contact_no_damage_witness :
  simulating duel = true /\ findPlayer (robots duel) = Some O /\
  robots duel !! O = Some restingPlayer /\ calm noKeys duel 0 0 /\
  exists b', robots (useFrame noKeys duel) !! O = Some b' /\ health b' = health restingPlayer.
Proof.
  repeat (split; [first [reflexivity | apply duel_calm] |]).
  destruct (movement_lookup noKeys (robots duel) O restingPlayer eq_refl eq_refl
              O restingPlayer eq_refl) as [k0 H0].
  assert (Hlive : isDead (fst (stepBot noKeys (playerSeen noKeys (robots duel) 0 0)
                                       restingPlayer k0)) = false).
  { apply stepBot_survives; [reflexivity | |]; rewrite restingPlayer_stays; cbn [vx vz];
      unfold halfSize, ARENA_SIZE; PhysicsFacts.split_abs; lra. }
  destruct (no_contact_no_damage noKeys duel O O restingPlayer _ eq_refl eq_refl eq_refl
              (duel_calm 0) H0 Hlive) as (b' & Hb' & _ & Hh & _).
  exists b'. split; assumption.
Defined.

(** *** [initGame] *)

(** X18: Spawn circle.  Every enemy [initGame] creates is exactly 6 units from
    the player at the origin, whatever its index, and so is out of contact
    with the player when the match starts. *)
Theorem spawn_circle i :
  Vec.distanceTo (position (enemyRobot i)) (position playerRobot) = 6 /\
  touching (enemyRobot i) playerRobot = false /\
  touching playerRobot (enemyRobot i) = false.
Proof.
  set (a := INR i / INR ENEMY_COUNT * PI * 2).
  assert (Hsq : sin a * sin a + cos a * cos a = 1).
  { pose proof (sin2_cos2 a) as H. unfold Rsqr in H. exact H. }
  assert (D1 : Vec.distanceTo (position (enemyRobot i)) (position playerRobot) = 6).
  { unfold Vec.distanceTo, Vec.length, Vec.sub. cbn [enemyRobot playerRobot position vx vy vz Vec.zero].
    fold a.
    replace ((cos a * 6 - 0) * (cos a * 6 - 0) + (0 - 0) * (0 - 0)
             + (sin a * 6 - 0) * (sin a * 6 - 0))
      with (6 * 6 * (sin a * sin a + cos a * cos a)) by ring.
    rewrite Hsq, Rmult_1_r. apply sqrt_square. lra. }
  assert (D2 : Vec.distanceTo (position playerRobot) (position (enemyRobot i)) = 6).
  { unfold Vec.distanceTo, Vec.length, Vec.sub. cbn [enemyRobot playerRobot position vx vy vz Vec.zero].
    fold a.
    replace ((0 - cos a * 6) * (0 - cos a * 6) + (0 - 0) * (0 - 0)
             + (0 - sin a * 6) * (0 - sin a * 6))
      with (6 * 6 * (sin a * sin a + cos a * cos a)) by ring.
    rewrite Hsq, Rmult_1_r. apply sqrt_square. lra. }
  split; [exact D1 |].
  unfold touching. rewrite D1, D2.
  split; apply NumFacts.ltb_false; unfold minDist, ROBOT_RADIUS; lra.
Qed.

End FrameExtras.

(** ** The keyboard *)

Module KeyboardFacts.
Import Keyboard.

Lemma pressed_dispatch m e code :
  pressed (dispatch m e) code =
  match e with
  | keydown c => if String.eqb c code then true else pressed m code
  | keyup c => if String.eqb c code then false else pressed m code
  end.
Proof.
  unfold pressed, dispatch, handleKeyDown, handleKeyUp.
  destruct e as [c | c]; destruct (String.eqb_spec c code) as [-> | Hne];
    rewrite ?lookup_insert_eq, ?lookup_insert_ne by exact Hne; reflexivity.
Qed.

(** X19: Key state.  After any sequence of [keydown] and [keyup] events, a
    key reads as held exactly when the last event on it was a [keydown]; a
    key the sequence never mentions reads as it did before.  From the empty
    state such a key reads as not held, unless its code names a member of
    [Object.prototype], which reads as held until its first [keyup]; the
    nine codes of [GAME_KEYS] name none. *)
Theorem key_sequence events m code :
  pressed (fold_left dispatch events m) code
  = default (pressed m code) (lastEvent code events) /\
  pressed (fold_left dispatch events noneHeld) code
  = default (inherited code) (lastEvent code events) /\
  (code ∈ GAME_KEYS ->
   pressed (fold_left dispatch events noneHeld) code
   = default false (lastEvent code events)).
Proof.
  assert (H : forall m', pressed (fold_left dispatch events m') code
                         = default (pressed m' code) (lastEvent code events)).
  { intros m'. induction events as [| e events IH] using rev_ind; [reflexivity |].
    unfold lastEvent in *. rewrite !fold_left_app. cbn [fold_left].
    rewrite pressed_dispatch, IH.
    destruct e as [c | c]; destruct (String.eqb c code); reflexivity. }
  assert (H0 : pressed noneHeld code = inherited code).
  { unfold pressed, noneHeld. rewrite lookup_empty. reflexivity. }
  split; [apply H |]. split; [rewrite H, H0; reflexivity |].
  intros Hin. rewrite H, H0.
  apply list_elem_of_In in Hin. cbn in Hin.
  repeat (destruct Hin as [<- | Hin]; [reflexivity |]). contradiction.
Qed.

Lemma key_sequence_witness :
  let events := [keydown "Space"; keydown "KeyW"; keyup "Space"] in
  "KeyW" ∈ GAME_KEYS /\
  pressed (fold_left dispatch events noneHeld) "KeyW" = default false (lastEvent "KeyW" events).
Proof.
  intros events.
  assert (Hin : "KeyW" ∈ GAME_KEYS) by (apply list_elem_of_In; cbn; tauto).
  split; [exact Hin |].
  exact (proj2 (proj2 (key_sequence events noneHeld "KeyW")) Hin).
Defined.

Lemma game_key code : In code GAME_KEYS -> code ∈ GAME_KEYS.
Proof. apply list_elem_of_In. Qed.

Lemma player_game_keys inp inp' b :
  (forall code, code ∈ GAME_KEYS -> keys inp code = keys inp' code) ->
  Steering.player inp b = Steering.player inp' b.
Proof.
  intros H. unfold Steering.player, Steering.held.
  rewrite !(H "ArrowLeft"), !(H "KeyA"), !(H "ArrowRight"), !(H "KeyD"),
    !(H "ArrowUp"), !(H "KeyW"), !(H "ArrowDown"), !(H "KeyS"), !(H "Space")
    by (apply game_key; cbn; tauto).
  reflexivity.
Qed.

Lemma stepBot_game_keys inp inp' pp b k :
  now inp = now inp' -> (forall n, random inp n = random inp' n) ->
  (forall code, code ∈ GAME_KEYS -> keys inp code = keys inp' code) ->
  stepBot inp pp b k = stepBot inp' pp b k.
Proof.
  intros Hn Hr Hk. unfold stepBot, Steering.steer, Steering.enemy.
  rewrite Hn, Hr, (player_game_keys inp inp' b Hk). reflexivity.
Qed.

Lemma decay_same_draws inp inp' rs k :
  (forall n, random inp n = random inp' n) -> decay inp rs k = decay inp' rs k.
Proof.
  intros Hr. revert k. induction rs as [| b rs IH]; intros k; cbn [decay]; [reflexivity |].
  rewrite Hr, !IH. reflexivity.
Qed.

(** X20: Game keys only.  Two frames with the same clock and the same random
    draws whose key states agree on the nine codes of [GAME_KEYS] return the
    same robots and the same state: no other key has any effect. *)
Theorem frame_reads_game_keys inp inp' app :
  now inp = now inp' -> (forall n, random inp n = random inp' n) ->
  (forall code, code ∈ GAME_KEYS -> keys inp code = keys inp' code) ->
  useFrame inp app = useFrame inp' app.
Proof.
  intros Hn Hr Hk.
  assert (Hmove : forall p l st, fold_left (moveAt inp p) l st = fold_left (moveAt inp' p) l st).
  { intros p l. induction l as [| i l IH]; intros st; cbn [fold_left]; [reflexivity |].
    rewrite IH. f_equal. unfold moveAt.
    destruct (fst st !! i) as [bot |]; [| reflexivity].
    destruct (fst st !! p) as [pl |]; [| reflexivity].
    rewrite (stepBot_game_keys inp inp' (position pl) bot (snd st) Hn Hr Hk). reflexivity. }
  unfold useFrame, movement.
  destruct (negb (isPlaying (gameState app))); [reflexivity |].
  destruct (findPlayer (robots app)) as [p |]; [| reflexivity].
  destruct (robots app !! p) as [pl |]; [| reflexivity].
  destruct (isDead pl); [reflexivity |].
  destruct (Nat.eqb (length (enemies (robots app))) 0); [reflexivity |].
  rewrite Hmove, Hn.
  destruct (fold_left (moveAt inp' p) (seq 0 (length (robots app))) (robots app, O)) as [moved k].
  rewrite (decay_same_draws inp inp' _ k Hr). reflexivity.
Qed.

Lemma frame_reads_game_keys_witness :
  let inp := mkInput (fun code => String.eqb code "Tab") 0 (fun _ => 0) in
  now inp = now noKeys /\ (forall n, random inp n = random noKeys n) /\
  (forall code, code ∈ GAME_KEYS -> keys inp code = keys noKeys code) /\
  useFrame inp duel = useFrame noKeys duel.
Proof.
  intros inp.
  assert (Hk : forall code, code ∈ GAME_KEYS -> keys inp code = keys noKeys code).
  { intros code Hin. apply list_elem_of_In in Hin. cbn in Hin.
    repeat (destruct Hin as [<- | Hin]; [reflexivity |]). contradiction. }
  split; [reflexivity |]. split; [reflexivity |]. split; [exact Hk |].
  exact (frame_reads_game_keys inp noKeys duel eq_refl (fun _ => eq_refl) Hk).
Defined.

End KeyboardFacts.

(** ** The arena as drawn and as simulated *)

Module ArenaFacts.

(** X21: Walls as drawn.  The wall boxes the arena draws span exactly the
    coordinates on which the wall checks of the frame act: a robot beside a
    drawn wall is kept within [halfSize - ROBOT_RADIUS] of the centre by the
    check, a robot beyond the end of the wall is left alone; and the corner
    pit squares reach from the end of the walls to the edge of the floor. *)
Theorem walls_as_drawn :
  (forall bot, Rabs (vz (position bot)) < Arena.wallWidth / 2 ->
     Rabs (vx (position (Physics.wallX bot))) <= ARENA_SIZE / 2 - ROBOT_RADIUS) /\
  (forall bot, Arena.wallWidth / 2 <= Rabs (vz (position bot)) -> Physics.wallX bot = bot) /\
  (forall bot, Rabs (vx (position bot)) < Arena.wallWidth / 2 ->
     Rabs (vz (position (Physics.wallZ bot))) <= ARENA_SIZE / 2 - ROBOT_RADIUS) /\
  (forall bot, Arena.wallWidth / 2 <= Rabs (vx (position bot)) -> Physics.wallZ bot = bot) /\
  Arena.pitCentre - Arena.pitSide / 2 = Arena.wallWidth / 2 /\
  Arena.pitCentre + Arena.pitSide / 2 = ARENA_SIZE / 2.
Proof.
  assert (Hw : Arena.wallWidth / 2 = wallRange).
  { unfold Arena.wallWidth, wallRange, halfSize. lra. }
  rewrite Hw. fold halfSize bRad.
  split; [| split; [| split; [| split; [| split]]]].
  - intros bot H. apply (PhysicsFacts.wallX_position bot). exact H.
  - intros bot H. unfold Physics.wallX. rewrite NumFacts.ltb_false by lra. reflexivity.
  - intros bot H. apply (PhysicsFacts.wallZ_position bot). exact H.
  - intros bot H. unfold Physics.wallZ. rewrite NumFacts.ltb_false by lra. reflexivity.
  - unfold Arena.pitCentre, Arena.pitSide, wallRange, halfSize. lra.
  - unfold Arena.pitCentre, Arena.pitSide, halfSize. lra.
Qed.

Lemma walls_as_drawn_witness :
  Rabs (vz (position wallRunner)) < Arena.wallWidth / 2 /\
  Rabs (vx (position (Physics.wallX wallRunner))) <= ARENA_SIZE / 2 - ROBOT_RADIUS.
Proof.
  assert (H : Rabs (vz (position wallRunner)) < Arena.wallWidth / 2).
  { cbn. rewrite Rabs_R0. unfold Arena.wallWidth, ARENA_SIZE, WALL_GAP. lra. }
  split; [exact H | exact (proj1 walls_as_drawn wallRunner H)].
Defined.

End ArenaFacts.
